(** * Protopiler: the recipe compiler of ot2_driver

    A shallow embedding of [ot2_driver/protopiler/protopiler.py]: the
    command preprocessing ([_postprocess_commands], [_unpack_alias]),
    the resource loader ([load_resources]), the broadcast resolver
    ([_process_instruction]), the location resolver
    ([_parse_wellplate_location]) and the command generator
    ([_create_commands]).

    Python values are modelled as the code uses them: a field of a command
    is either a scalar or a list, dictionaries whose iteration order is
    observed are association lists, dictionaries that are only looked up
    are [gmap]s, and every operation that can raise returns a [result]. *)

From stdpp Require Import base option list strings gmap.
From Stdlib Require Import ZArith DecimalString Ascii.

Open Scope string_scope.
Open Scope list_scope.

(** ** Python primitives *)

Module Py.

(** The exceptions the compiler can raise.  [PyException] is a bare
    [raise Exception(msg)]; the others are raised by the interpreter. *)
Inductive exn : Type :=
| PyException (msg : string)
| KeyError (key : string)
| UnboundLocalError (var : string)
| AttributeError (attr : string)
| IndexError
| ValueError
| TypeError.

Inductive result (A : Type) : Type :=
| Ok (a : A)
| Raise (e : exn).

Arguments Ok {A} a.
Arguments Raise {A} e.

#[export] Instance result_ret : MRet result := fun _ a => Ok a.

#[export] Instance result_bind : MBind result := fun _ _ f r =>
  match r with
  | Ok a => f a
  | Raise e => Raise e
  end.

(** A Python scalar as it occurs in a recipe or a table cell: an [int] or
    a [str]. *)
Inductive pyval : Type :=
| PInt (z : Z)
| PStr (s : string).

(** A command field: a single value or a Python list. *)
Inductive field (A : Type) : Type :=
| Scalar (a : A)
| List (l : list A).

Arguments Scalar {A} a.
Arguments List {A} l.

(** [sub in s] for two strings. *)
Fixpoint contains (sub s : string) : bool :=
  String.prefix sub s ||
  match s with
  | EmptyString => false
  | String _ s' => contains sub s'
  end.

(** [s.split(sep)] for a non-empty separator: [skip] counts the characters
    of a separator just matched that are still to be passed over, [acc] is
    the piece being read. *)
Fixpoint split_go (sep : string) (skip : nat) (s acc : string) : list string :=
  match s with
  | EmptyString => [acc]
  | String c s' =>
      match skip with
      | S k => split_go sep k s' acc
      | O =>
          if String.prefix sep s
          then acc :: split_go sep (String.length sep - 1) s' EmptyString
          else split_go sep 0 s' (acc +:+ String c EmptyString)
      end
  end.

Definition split (sep s : string) : list string := split_go sep 0 s EmptyString.

(** [sep.join(l)]. *)
Definition join (sep : string) (l : list string) : string := String.concat sep l.

(** [c in chars] for a character. *)
Fixpoint char_in (c : ascii) (chars : string) : bool :=
  match chars with
  | EmptyString => false
  | String c' chars' => Ascii.eqb c c' || char_in c chars'
  end.

Fixpoint lstrip (chars s : string) : string :=
  match s with
  | EmptyString => EmptyString
  | String c s' => if char_in c chars then lstrip chars s' else s
  end.

(** [s.strip(chars)]. *)
Definition strip (chars s : string) : string :=
  String.rev (lstrip chars (String.rev (lstrip chars s))).

Definition is_digit_char (c : ascii) : bool :=
  let n := nat_of_ascii c in (48 <=? n)%nat && (n <=? 57)%nat.

Fixpoint all_digits (s : string) : bool :=
  match s with
  | EmptyString => true
  | String c s' => is_digit_char c && all_digits s'
  end.

(** [s.isdigit()] on ASCII text: at least one character, all of them
    decimal digits.  A string is held as its UTF-8 bytes, and the digits
    known here are the ASCII ones: on ASCII text the answer is Python's,
    and a string taken for digits here is one for Python too, but a
    string with digits of another script is not taken for one here. *)
Definition isdigit (s : string) : bool :=
  match s with
  | EmptyString => false
  | _ => all_digits s
  end.

(** Every byte of the text is an ASCII character. *)
Fixpoint is_ascii (s : string) : bool :=
  match s with
  | EmptyString => true
  | String c s' => (nat_of_ascii c <? 128)%nat && is_ascii s'
  end.

(** A byte that continues a character in UTF-8. *)
Definition is_continuation (c : ascii) : bool :=
  let n := nat_of_ascii c in (128 <=? n)%nat && (n <=? 191)%nat.

Fixpoint skip_continuation (s : string) : string :=
  match s with
  | EmptyString => EmptyString
  | String c s' => if is_continuation c then skip_continuation s' else s
  end.

(** [s[1:]]: the text without its first character, which in UTF-8 is a
    byte and the continuation bytes that follow it. *)
Definition tail (s : string) : string :=
  match s with
  | EmptyString => EmptyString
  | String _ s' => skip_continuation s'
  end.

(** [len(s)]: the number of characters, in UTF-8 the bytes that are no
    continuation bytes. *)
Fixpoint len (s : string) : nat :=
  match s with
  | EmptyString => 0
  | String c s' => (if is_continuation c then 0 else 1) + len s'
  end.

(** [l[-1]] of a list known to be non-empty (a [split] result). *)
Definition last_piece (l : list string) : string := List.last l EmptyString.

(** [l[0]] of a [split] result. *)
Definition first_piece (l : list string) : string := List.hd EmptyString l.

(** [str(z)] of an [int]. *)
Definition str_of_int (z : Z) : string := NilZero.string_of_int (Z.to_int z).

(** [str(v)], which is also what an f-string inserts for [{v}]. *)
Definition str (v : pyval) : string :=
  match v with
  | PInt z => str_of_int z
  | PStr s => s
  end.

(** [str(x)] of a value that may be [None]. *)
Definition str_opt (o : option string) : string :=
  match o with
  | Some s => s
  | None => "None"
  end.

Definition is_space_char (c : ascii) : bool :=
  let n := nat_of_ascii c in
  ((9 <=? n)%nat && (n <=? 13)%nat) || ((28 <=? n)%nat && (n <=? 32)%nat).

Fixpoint lstrip_space (s : string) : string :=
  match s with
  | EmptyString => EmptyString
  | String c s' => if is_space_char c then lstrip_space s' else s
  end.

(** The digits of an integer literal, read left to right; a single
    underscore is allowed between two digits.  [prev] tells whether the
    character just read was a digit. *)
Fixpoint digits_go (s : string) (prev : bool) (acc : Z) : option Z :=
  match s with
  | EmptyString => if prev then Some acc else None
  | String c s' =>
      if is_digit_char c
      then digits_go s' true (10 * acc + Z.of_nat (nat_of_ascii c - 48))
      else if Ascii.eqb c "_" && prev then digits_go s' false acc
      else None
  end.

(** [int(s)] for a string in base 10: surrounding white space, an optional
    sign, then digits.  The white space and the digits known here are the
    ASCII ones: on ASCII text the answer is Python's, and an integer read
    here is the one Python reads, but Python also reads digits and white
    space of other scripts, which are refused here. *)
Definition int_of_string (s : string) : option Z :=
  match String.rev (lstrip_space (String.rev (lstrip_space s))) with
  | String "-" d => Z.opp <$> digits_go d false 0
  | String "+" d => digits_go d false 0
  | d => digits_go d false 0
  end.

(** [int(v)]. *)
Definition int (v : pyval) : result Z :=
  match v with
  | PInt z => Ok z
  | PStr s =>
      match int_of_string s with
      | Some z => Ok z
      | None => Raise ValueError
      end
  end.

(** [zip(a, b, c)] as a list: it stops with the shortest argument. *)
Fixpoint zip3 {A B C : Type} (a : list A) (b : list B) (c : list C)
  : list (A * B * C) :=
  match a, b, c with
  | x :: a', y :: b', z :: c' => (x, y, z) :: zip3 a' b' c'
  | _, _, _ => []
  end.

(** [for x in l: ...] with a body that can raise: the results of the
    iterations that ran, or the first exception. *)
Fixpoint mapM {A B : Type} (f : A -> result B) (l : list A) : result (list B) :=
  match l with
  | [] => Ok []
  | x :: l' =>
      match f x with
      | Ok y =>
          match mapM f l' with
          | Ok ys => Ok (y :: ys)
          | Raise e => Raise e
          end
      | Raise e => Raise e
      end
  end.

(** A [dict] with string keys whose insertion order is observed.
    [d[k]] is [dict_get]; [d[k] = v] is [dict_set], which keeps the place
    of a key already present and appends a new one. *)
Definition dict (V : Type) : Type := list (string * V).

Fixpoint dict_get {V : Type} (k : string) (d : dict V) : option V :=
  match d with
  | [] => None
  | (k', v) :: d' => if String.eqb k k' then Some v else dict_get k d'
  end.

Fixpoint dict_set {V : Type} (k : string) (v : V) (d : dict V) : dict V :=
  match d with
  | [] => [(k, v)]
  | (k', v') :: d' =>
      if String.eqb k k' then (k', v) :: d' else (k', v') :: dict_set k v d'
  end.

(** [d[k]], raising [KeyError] for an absent key. *)
Definition dict_item {V : Type} (k : string) (d : dict V) : result V :=
  match dict_get k d with
  | Some v => Ok v
  | None => Raise (KeyError k)
  end.

End Py.

Import Py.

(** ** The data model *)

(** A command block of the recipe ([config.Command]). *)
Record Command : Type := {
  name : option string;
  source : field string;
  destination : field string;
  volume : field pyval;
  drop_tip : bool
}.

Definition set_source (c : Command) (f : field string) : Command :=
  {| name := name c; source := f; destination := destination c;
     volume := volume c; drop_tip := drop_tip c |}.

Definition set_destination (c : Command) (f : field string) : Command :=
  {| name := name c; source := source c; destination := f;
     volume := volume c; drop_tip := drop_tip c |}.

Definition set_volume (c : Command) (f : field pyval) : Command :=
  {| name := name c; source := source c; destination := destination c;
     volume := f; drop_tip := drop_tip c |}.

(** A resource entry of the recipe ([config.Resource]): a name and the
    location of a spreadsheet. *)
Record Resource : Type := {
  resource_name : string;
  resource_location : string
}.

(** A table as [pandas.read_excel(..., header=0)] returns it: [df[col]]
    looks a column up by its header and iterating it gives the cells in row
    order. *)
Abbreviation DataFrame := (gmap string (list pyval)).

(** [self.resources]: table name to table, in insertion order. *)
Abbreviation Resources := (dict DataFrame).

(** One elementary transfer, as [_process_instruction] yields it. *)
Definition transfer : Type := pyval * string * string.

(** ** [load_resources] *)

Section LoadResources.

(** [pd.read_excel(location, header=0)]. *)
Variable read_excel : string -> result DataFrame.

(** The body of the loop over [resources]: one table is read and stored
    under the resource's name.  The second component records the locations
    read so far. *)
Definition load_resource (st : Resources * list string) (resource : Resource)
  : result (Resources * list string) :=
  df ← read_excel (resource_location resource);
  mret (dict_set (resource_name resource) df st.1,
        st.2 ++ [resource_location resource]).

Fixpoint load_resource_loop (st : Resources * list string) (resources : list Resource)
  : result (Resources * list string) :=
  match resources with
  | [] => mret st
  | resource :: rest =>
      st' ← load_resource st resource;
      load_resource_loop st' rest
  end.

(** [load_resources]: [self.resources = {}], then the loop, guarded by
    [if self.resources:].  Returns the new [self.resources] and the list of
    locations handed to [read_excel]. *)
Definition load_resources (resources : list Resource)
  : result (Resources * list string) :=
  let self_resources : Resources := [] in
  match self_resources with
  | _ :: _ => load_resource_loop (self_resources, []) resources
  | [] => mret (self_resources, [])
  end.

End LoadResources.

(** ** [_unpack_alias] and [_postprocess_commands] *)

(** [_unpack_alias] on a string [alias:[w1, w2, ...]]. *)
Definition _unpack_alias (command_elem : string) : list string :=
  let alias := first_piece (split ":" command_elem) in
  let process_source := join ":" (List.tl (split ":" command_elem)) in
  let process_source := split ", " (strip "][" process_source) in
  flat_map
    (fun location =>
       if (String.length location =? 0)%nat then []
       else if negb (contains ":" location)
            then [alias +:+ ":" +:+ location]
            else [location])
    process_source.

(** [":[" in f]: a substring test on a string, a membership test on a
    list. *)
Definition has_alias_list (f : field string) : bool :=
  match f with
  | Scalar s => contains ":[" s
  | List l => bool_decide (":[" ∈ l)
  end.

(** [self._unpack_alias(f)]: a list has no [split]. *)
Definition unpack_field (f : field string) : result (list string) :=
  match f with
  | Scalar s => mret (_unpack_alias s)
  | List _ => Raise (AttributeError "split")
  end.

(** [peek_elem]: the field, or its first element when it is a list. *)
Definition peek (f : field string) : result string :=
  match f with
  | Scalar s => mret s
  | List [] => Raise IndexError
  | List (s :: _) => mret s
  end.

(** The test [not peek_well.isdigit() and not peek_well[1:].isdigit()]:
    the segment is read as a column name. *)
Definition is_column_name (peek_well : string) : bool :=
  negb (isdigit peek_well) && negb (isdigit (tail peek_well)).

(** [resource_key], bound only under [if self.resources:]. *)
Definition first_resource_key (resources : Resources) : option string :=
  match resources with
  | [] => None
  | (k, _) :: _ => Some k
  end.

(** [self.resources[resource_key][col]]. *)
Definition column (resources : Resources) (resource_key : option string)
  (col : string) : result (list pyval) :=
  match resource_key with
  | None => Raise (UnboundLocalError "resource_key")
  | Some k =>
      df ← dict_item k resources;
      match df !! col with
      | Some cells => mret cells
      | None => Raise (KeyError col)
      end
  end.

(** The loop [for orig_command, loc in zip(repeat(f), cells)]: one
    location [deck:loc] per cell, the deck taken from the field itself. *)
Definition column_locations (f : field string) (cells : list pyval)
  : result (list string) :=
  mapM
    (fun loc =>
       match f with
       | Scalar orig_command =>
           mret (first_piece (split ":" orig_command) +:+ ":" +:+ str loc)
       | List _ => Raise (AttributeError "split")
       end)
    cells.

(** The body of the loop over [self.commands].  [peek_well] is computed
    from the source and is the one tested for the destination too. *)
Definition postprocess_command (resources : Resources)
  (resource_key : option string) (command : Command) : result Command :=
  command ←
    (if has_alias_list (source command)
     then l ← unpack_field (source command); mret (set_source command (List l))
     else mret command);
  peek_elem ← peek (source command);
  let peek_well := last_piece (split ":" peek_elem) in
  command ←
    (if is_column_name peek_well
     then cells ← column resources resource_key peek_well;
          new_locations ← column_locations (source command) cells;
          mret (set_source command (List new_locations))
     else mret command);
  command ←
    (if has_alias_list (destination command)
     then l ← unpack_field (destination command);
          mret (set_destination command (List l))
     else mret command);
  _ ← peek (destination command);
  if is_column_name peek_well
  then cells ← column resources resource_key peek_well;
       new_locations ← column_locations (destination command) cells;
       mret (set_destination command (List new_locations))
  else mret command.

(** The statement after the loop, on the variable [command] the loop
    left behind: the last command, if there is one. *)
Definition postprocess_volume (resources : Resources)
  (resource_key : option string) (commands : list Command)
  : result (list Command) :=
  match List.last (Some <$> commands) None with
  | None => Raise (UnboundLocalError "command")
  | Some command =>
      match volume command with
      | Scalar (PInt _) => mret commands
      | List _ => mret commands
      | Scalar (PStr col) =>
          cells ← column resources resource_key col;
          new_volumes ← mapM int cells;
          mret (List.removelast commands
                  ++ [set_volume command (List (PInt <$> new_volumes))])
      end
  end.

(** [_postprocess_commands]: [self.commands] after the call. *)
Definition _postprocess_commands (resources : Resources)
  (commands : list Command) : result (list Command) :=
  let resource_key := first_resource_key resources in
  commands ← mapM (postprocess_command resources resource_key) commands;
  postprocess_volume resources resource_key commands.

(** ** [load_config] *)

(** What [load_config] reads of the parsed recipe ([config.ProtocolConfig]). *)
Record ProtocolConfig : Type := {
  config_resources : list Resource;
  config_commands : list Command
}.

(** [load_config], after the recipe is parsed: the tables are loaded, the
    commands taken from the recipe and preprocessed.  Returns
    [self.resources] and [self.commands]. *)
Definition load_config (read_excel : string -> result DataFrame)
  (config : ProtocolConfig) : result (Resources * list Command) :=
  loaded ← load_resources read_excel (config_resources config);
  let self_resources := loaded.1 in
  self_commands ← _postprocess_commands self_resources (config_commands config);
  mret (self_resources, self_commands).

(** ** [_process_instruction] *)

Definition msg_multiple : string :=
  "Multiple iterables found, cannot deterine dimension to iterate over".

Definition msg_different : string :=
  "Multiple iterables of differnet lengths found, cannot deterine dimension to iterate over".

(** [len(f)] of a location field: the number of characters of a string,
    the number of elements of a list. *)
Definition field_len (f : field string) : nat :=
  match f with
  | Scalar s => len s
  | List l => length l
  end.

(** The [if isinstance(command_block.volume, list)] statement, from
    [iter_len = 0]: the block and [iter_len] after it. *)
Definition collapse_volume (cb : Command) : Command * nat :=
  match volume cb with
  | List [v] => (set_volume cb (Scalar v), 0)
  | List l => (cb, length l)
  | Scalar _ => (cb, 0)
  end.

(** The [if isinstance(command_block.source, list)] statement.  After a
    one-element list is replaced by its element, [iter_len] is the [len]
    of what the field holds then. *)
Definition collapse_source (cb : Command) (iter_len : nat)
  : Command * result nat :=
  match source cb with
  | List l =>
      if negb (iter_len =? 0)%nat && negb (length l =? iter_len)%nat
      then match l with
           | [s] =>
               let cb' := set_source cb (Scalar s) in
               (cb', Ok (field_len (source cb')))
           | _ => (cb, Raise (PyException msg_multiple))
           end
      else (cb, Ok (length l))
  | Scalar _ => (cb, Ok iter_len)
  end.

(** The [if isinstance(command_block.destination, list)] statement. *)
Definition collapse_destination (cb : Command) (iter_len : nat)
  : Command * result nat :=
  match destination cb with
  | List l =>
      if negb (iter_len =? 0)%nat && negb (length l =? iter_len)%nat
      then match l with
           | [d] =>
               let cb' := set_destination cb (Scalar d) in
               (cb', Ok (field_len (destination cb')))
           | _ => (cb, Raise (PyException msg_different))
           end
      else (cb, Ok (length l))
  | Scalar _ => (cb, Ok iter_len)
  end.

(** A list field is iterated as it is; any other value is
    [repeat(value, iter_len)]. *)
Definition iterable {A : Type} (f : field A) (iter_len : nat) : list A :=
  match f with
  | Scalar a => repeat a iter_len
  | List l => l
  end.

(** [_process_instruction], run to exhaustion as the [for] loop of
    [_create_commands] does: the command block as the call leaves it, and
    the triples yielded or the exception raised.  Every assignment to the
    block and every [raise] precedes the first [yield]. *)
Definition _process_instruction (command_block : Command)
  : Command * result (list transfer) :=
  match volume command_block, source command_block, destination command_block with
  | Scalar (PInt v), Scalar s, Scalar d => (command_block, Ok [(PInt v, s, d)])
  | _, _, _ =>
      let '(cb, iter_len) := collapse_volume command_block in
      match collapse_source cb iter_len with
      | (cb, Raise e) => (cb, Raise e)
      | (cb, Ok iter_len) =>
          match collapse_destination cb iter_len with
          | (cb, Raise e) => (cb, Raise e)
          | (cb, Ok iter_len) =>
              (cb, Ok (zip3 (iterable (volume cb) iter_len)
                            (iterable (source cb) iter_len)
                            (iterable (destination cb) iter_len)))
          end
      end
  end.

(** ** [_parse_wellplate_location] *)

(** A value of [labware_to_location]: a slot, a list of slots, or
    something that is neither a [str] nor a [list]. *)
Inductive labware_loc : Type :=
| LocStr (s : string)
| LocList (l : list string)
| LocInt (z : Z).

(** The body of the loop over [labware_to_location.items()]; the messages
    it prints are not modelled. *)
Definition wellplate_step (location : option string)
  (entry : string * labware_loc) : option string :=
  let '(name, loc) := entry in
  if contains "well" name
  then match loc with
       | LocList (l0 :: _ :: _) => Some l0
       | LocList [l0] => Some l0
       | LocList [] => location
       | LocStr s => Some s
       | LocInt _ => location
       end
  else location.

Definition msg_not_formatted (command_location : string) : string :=
  "Command: " +:+ command_location +:+ " is not formatted correctly...".

(** [_parse_wellplate_location], given the two dictionaries of the resource
    manager it reads.  [None] is Python's [None]. *)
Definition _parse_wellplate_location (alias_to_location : gmap string string)
  (labware_to_location : dict labware_loc) (command_location : string)
  : result (option string) :=
  if contains ":" command_location
  then match split ":" command_location with
       | [plate; _] =>
           match alias_to_location !! plate with
           | Some location => Ok (Some location)
           | None => Raise (KeyError plate)
           end
       | _ => Raise (PyException (msg_not_formatted command_location))
       end
  else Ok (fold_left wellplate_step labware_to_location None).

(** ** The resource manager *)

(** What [_create_commands] uses of [ResourceManager], whose module is not
    among the sources: three dictionaries it reads, and three methods, of
    which [get_next_tip] and [update_well_usage] change the manager. *)
Class ResourceManager (R : Type) : Type := {
  determine_pipette : R -> pyval -> result (option string);
  mount_to_pipette : R -> gmap string string;
  get_next_tip : R -> string -> result (pyval * pyval * R);
  update_well_usage : R -> option string -> string -> result R;
  alias_to_location : R -> gmap string string;
  labware_to_location : R -> dict labware_loc
}.

(** ** [_create_commands] *)

(** An entry of the list [commands]: a template with its placeholders
    filled in.  [BlockHeader n] is the comment line of block [n],
    [PickTip], [Aspirate], [Dispense] and [DropTip] are the four templates
    with the values put in for [#pipette#], [#location#], [#volume#],
    [#src#] and [#dst#], and [Blank] is the empty string closing a
    transfer. *)
Inductive snippet : Type :=
| BlockHeader (block_name : string)
| PickTip (mount : string) (rack_location well_location : pyval)
| Aspirate (mount : string) (volume : pyval) (slot : option string) (well : string)
| Dispense (mount : string) (volume : pyval) (slot : option string) (well : string)
| DropTip (mount : string)
| Blank.

Section CreateCommands.

Context {R : Type} `{ResourceManager R}.

(** The local state of [_create_commands]: the list [commands], the
    dictionary [tip_loaded] and [self.resource_manager]. *)
Record state : Type := {
  commands : list snippet;
  tip_loaded : dict bool;
  resource_manager : R
}.

Definition emit (st : state) (c : snippet) : state :=
  {| commands := commands st ++ [c]; tip_loaded := tip_loaded st;
     resource_manager := resource_manager st |}.

Definition set_tip (st : state) (mount : string) (b : bool) : state :=
  {| commands := commands st; tip_loaded := dict_set mount b (tip_loaded st);
     resource_manager := resource_manager st |}.

Definition set_manager (st : state) (rm : R) : state :=
  {| commands := commands st; tip_loaded := tip_loaded st;
     resource_manager := rm |}.

(** [block_name]: the name of the block, or its position. *)
Definition block_name (i : nat) (command_block : Command) : string :=
  match name command_block with
  | Some n => n
  | None => "command " +:+ str_of_int (Z.of_nat i)
  end.

Definition msg_no_pipette (block_name : string) (volume : pyval) : string :=
  "No pipette available for " +:+ block_name +:+ " with volume: " +:+ str volume.

(** The [if not tip_loaded[pipette_mount]] statement. *)
Definition check_tip (pipette_mount : string) (st : state) : result state :=
  loaded ← dict_item pipette_mount (tip_loaded st);
  if negb loaded
  then match mount_to_pipette (resource_manager st) !! pipette_mount with
       | None => Raise (KeyError pipette_mount)
       | Some pipette_name =>
           '(rack_location, well_location, rm) ←
             get_next_tip (resource_manager st) pipette_name;
           let st := set_manager st rm in
           let st := emit st (PickTip pipette_mount rack_location well_location) in
           mret (set_tip st pipette_mount true)
       end
  else mret st.

(** One endpoint of a transfer: its wellplate is looked up, the command
    built by [mk] is appended, and the well is counted as used. *)
Definition endpoint (mk : option string -> string -> snippet) (loc : string)
  (st : state) : result state :=
  wellplate_location ←
    _parse_wellplate_location (alias_to_location (resource_manager st))
      (labware_to_location (resource_manager st)) loc;
  let well := last_piece (split ":" loc) in
  let st := emit st (mk wellplate_location well) in
  rm ← update_well_usage (resource_manager st) wellplate_location well;
  mret (set_manager st rm).

(** The body of the loop over the triples of one block. *)
Definition transfer_step (block_name : string) (drop_tip : bool)
  (st : state) (t : transfer) : result state :=
  let '(volume, src, dst) := t in
  pipette_mount ← determine_pipette (resource_manager st) volume;
  match pipette_mount with
  | None => Raise (PyException (msg_no_pipette block_name volume))
  | Some pipette_mount =>
      st ← check_tip pipette_mount st;
      st ← endpoint (Aspirate pipette_mount volume) src st;
      st ← endpoint (Dispense pipette_mount volume) dst st;
      let st :=
        if drop_tip
        then set_tip (emit st (DropTip pipette_mount)) pipette_mount false
        else st in
      mret (emit st Blank)
  end.

Fixpoint transfer_loop (block_name : string) (drop_tip : bool) (st : state)
  (transfers : list transfer) : result state :=
  match transfers with
  | [] => mret st
  | t :: rest =>
      st ← transfer_step block_name drop_tip st t;
      transfer_loop block_name drop_tip st rest
  end.

(** The loop over [enumerate(self.commands)], from index [i]: the blocks
    as [_process_instruction] leaves them, and the final state. *)
Fixpoint block_loop (i : nat) (blocks : list Command) (st : state)
  : result (list Command * state) :=
  match blocks with
  | [] => mret ([], st)
  | command_block :: rest =>
      let block_name := block_name i command_block in
      let st := emit st (BlockHeader block_name) in
      let '(command_block, yielded) := _process_instruction command_block in
      transfers ← yielded;
      st ← transfer_loop block_name (drop_tip command_block) st transfers;
      '(rest, st) ← block_loop (S i) rest st;
      mret (command_block :: rest, st)
  end.

(** The closing loop over [tip_loaded.items()]: the [DropTip] commands it
    appends.  It also resets every entry to [False]. *)
Definition trailing_drops (tip_loaded : dict bool) : list snippet :=
  flat_map (fun '(mount, status) => if status : bool then [DropTip mount] else [])
    tip_loaded.

(** What a run of [_create_commands] leaves: the list it returns,
    [self.commands] and the resource manager. *)
Record compiled : Type := {
  protocol : list snippet;
  blocks_after : list Command;
  manager_after : R
}.

Definition _create_commands (rm : R) (self_commands : list Command)
  : result compiled :=
  let st := {| commands := [];
               tip_loaded := [("left", false); ("right", false)];
               resource_manager := rm |} in
  '(blocks, st) ← block_loop 0 self_commands st;
  mret {| protocol := commands st ++ trailing_drops (tip_loaded st);
          blocks_after := blocks;
          manager_after := resource_manager st |}.

End CreateCommands.

Arguments state R : clear implicits.
Arguments compiled R : clear implicits.

(** ** A deck to run the compiler on *)

(** Modelled from the spec: [resource_manager.py] is not among the sources.
    [Deck] is a resource manager after section 4.1 of the specification:
    pipettes with a volume range, tip racks of 96 wells with a cursor and
    the pipettes their tips fit, the alias and labware dictionaries and
    per-well usage counts. *)
Record Pipette : Type := {
  pipette_mount : string;
  pipette_model : string;
  min_volume : Z;
  max_volume : Z
}.

(** A tip rack: its slot, the pipette models its tips fit, and the index
    of its next unused well. *)
Record TipRack : Type := {
  rack_slot : string;
  rack_fits : list string;
  rack_cursor : Z
}.

Record Deck : Type := {
  pipettes : list Pipette;
  tip_racks : list TipRack;
  deck_alias : gmap string string;
  deck_labware : dict labware_loc;
  well_usage : list (option string * string)
}.

(** Modelled from the spec: among the pipettes whose range covers the
    volume, the one with the smallest [max_volume]. *)
Fixpoint tightest (v : Z) (ps : list Pipette) (best : option Pipette)
  : option Pipette :=
  match ps with
  | [] => best
  | p :: ps' =>
      if (min_volume p <=? v)%Z && (v <=? max_volume p)%Z
      then match best with
           | Some b =>
               if (max_volume p <? max_volume b)%Z
               then tightest v ps' (Some p)
               else tightest v ps' best
           | None => tightest v ps' (Some p)
           end
      else tightest v ps' best
  end.

Definition deck_determine_pipette (d : Deck) (volume : pyval)
  : result (option string) :=
  match volume with
  | PInt v => Ok (pipette_mount <$> tightest v (pipettes d) None)
  | PStr _ => Raise TypeError
  end.

(** Modelled from the spec: the rack's tips fit the pipette. *)
Definition fits_pipette (pipette_name : string) (rack : TipRack) : bool :=
  existsb (String.eqb pipette_name) (rack_fits rack).

(** Modelled from the spec: the racks, held in slot order, are scanned
    for the first one that fits the pipette and has an unused well; its
    cursor advances by one. *)
Fixpoint next_tip (pipette_name : string) (racks : list TipRack)
  : option (string * Z * list TipRack) :=
  match racks with
  | [] => None
  | rack :: rest =>
      if fits_pipette pipette_name rack && (rack_cursor rack <? 96)%Z
      then Some (rack_slot rack, rack_cursor rack,
                 {| rack_slot := rack_slot rack; rack_fits := rack_fits rack;
                    rack_cursor := (rack_cursor rack + 1)%Z |} :: rest)
      else match next_tip pipette_name rest with
           | Some (s, c, rest') => Some (s, c, rack :: rest')
           | None => None
           end
  end.

(** Modelled from the spec: [get_next_tip], failing when every rack that
    fits the pipette is used up. *)
Definition deck_get_next_tip (d : Deck) (pipette_name : string)
  : result (pyval * pyval * Deck) :=
  match next_tip pipette_name (tip_racks d) with
  | Some (slot, cursor, racks) =>
      Ok (PStr slot, PInt cursor,
          {| pipettes := pipettes d; tip_racks := racks;
             deck_alias := deck_alias d; deck_labware := deck_labware d;
             well_usage := well_usage d |})
  | None => Raise (PyException ("No tips available for " +:+ pipette_name))
  end.

Definition deck_update_well_usage (d : Deck) (slot : option string)
  (well : string) : result Deck :=
  Ok {| pipettes := pipettes d; tip_racks := tip_racks d;
        deck_alias := deck_alias d; deck_labware := deck_labware d;
        well_usage := well_usage d ++ [(slot, well)] |}.

#[export] Instance deck_manager : ResourceManager Deck := {
  determine_pipette := deck_determine_pipette;
  mount_to_pipette d :=
    list_to_map ((fun p => (pipette_mount p, pipette_model p)) <$> pipettes d);
  get_next_tip := deck_get_next_tip;
  update_well_usage := deck_update_well_usage;
  alias_to_location := deck_alias;
  labware_to_location := deck_labware
}.

(** A deck with two pipettes, a tip rack for each and two aliased
    plates. *)
Definition demo_deck : Deck := {|
  pipettes :=
    [ {| pipette_mount := "left"; pipette_model := "p20_single_gen2";
         min_volume := 1; max_volume := 20 |};
      {| pipette_mount := "right"; pipette_model := "p300_single_gen2";
         min_volume := 20; max_volume := 300 |} ];
  tip_racks :=
    [ {| rack_slot := "10"; rack_fits := ["p300_single_gen2"];
         rack_cursor := 0 |};
      {| rack_slot := "11"; rack_fits := ["p20_single_gen2"];
         rack_cursor := 0 |} ];
  deck_alias := <["src" := "2"]> (<["dst" := "3"]> ∅);
  deck_labware :=
    [("opentrons_96_tiprack_300ul", LocStr "10");
     ("opentrons_96_tiprack_20ul", LocStr "11");
     ("corning_96_wellplate_360ul_flat", LocList ["2"; "3"])];
  well_usage := []
|}.

(** Two blocks: the first drops the tip after each transfer, the second
    keeps it, so that the closing loop has a tip to drop. *)
Definition demo_recipe : list Command :=
  [ {| name := None; source := List ["src:A1"; "src:A2"];
       destination := Scalar "dst:C1";
       volume := List [PInt 5; PInt 100]; drop_tip := true |};
    {| name := Some "fill"; source := Scalar "src:A1";
       destination := List ["dst:B1"; "dst:B2"];
       volume := Scalar (PInt 50); drop_tip := false |} ].

(** ** Notions used to state the properties *)

(** The triples a block yields, or the exception. *)
Definition yields (command_block : Command) : result (list transfer) :=
  (_process_instruction command_block).2.

(** The state in which [_create_commands] enters its loop. *)
Definition initial_state {R : Type} (rm : R) : state R :=
  {| commands := [];
     tip_loaded := [("left", false); ("right", false)];
     resource_manager := rm |}.

(** The blocks [before], the first blocks of a recipe, compile without an
    exception and leave the loop of [_create_commands] in state [st]. *)
Definition reaches {R : Type} `{ResourceManager R} (rm : R)
  (before : list Command) (st : state R) : Prop :=
  ∃ before', block_loop 0 before (initial_state rm) = Ok (before', st).

Definition is_pick (mount : string) (c : snippet) : bool :=
  match c with
  | PickTip m _ _ => String.eqb mount m
  | _ => false
  end.

Definition is_drop (mount : string) (c : snippet) : bool :=
  match c with
  | DropTip m => String.eqb mount m
  | _ => false
  end.

(** The number of pick-tip and of drop-tip commands for a mount. *)
Definition picks (mount : string) (cs : list snippet) : nat :=
  length (List.filter (is_pick mount) cs).

Definition drops (mount : string) (cs : list snippet) : nat :=
  length (List.filter (is_drop mount) cs).

(** 1 when [tip_loaded[mount]] is [True], else 0. *)
Definition holding (mount : string) (tip_loaded : dict bool) : nat :=
  match dict_get mount tip_loaded with
  | Some true => 1
  | _ => 0
  end.

(** Picks and drops of a mount alternate, a pick first: at every point of
    the list the mount has as many picks as drops, or one more. *)
Definition alternating (cs : list snippet) : Prop :=
  ∀ p mount, p `prefix_of` cs →
    (drops mount p ≤ picks mount p ≤ drops mount p + 1)%nat.

(** The invariant of the loops of [_create_commands]: the keys of
    [tip_loaded] are distinct, a mount has one pick more than drops
    exactly when its tip is loaded, and picks and drops alternate. *)
Definition balanced {R : Type} (st : state R) : Prop :=
  NoDup (tip_loaded st).*1 ∧
  (∀ mount, picks mount (commands st)
            = drops mount (commands st) + holding mount (tip_loaded st)) ∧
  alternating (commands st).

(** The slot an entry of [labware_to_location] gives to a location
    without alias, if it gives one. *)
Definition wellplate_slot (entry : string * labware_loc) : option string :=
  if contains "well" entry.1
  then match entry.2 with
       | LocStr s => Some s
       | LocList (l0 :: _) => Some l0
       | _ => None
       end
  else None.

(** A one-element list. *)
Definition singleton {A : Type} (f : field A) : bool :=
  match f with
  | List [_] => true
  | _ => false
  end.

(** No field of the block is a one-element list. *)
Definition no_singleton (c : Command) : bool :=
  negb (singleton (volume c)) && negb (singleton (source c))
  && negb (singleton (destination c)).

(** The block uses none of the notations the preprocessing rewrites: no
    bracketed alias list, a source ending in a well name, and a volume
    that is not a column name. *)
Definition plain (c : Command) : bool :=
  negb (has_alias_list (source c)) && negb (has_alias_list (destination c))
  && match peek (source c), peek (destination c) with
     | Ok s, Ok _ => negb (is_column_name (last_piece (split ":" s)))
     | _, _ => false
     end
  && match volume c with
     | Scalar (PStr _) => false
     | _ => true
     end.

(** ** Recipes and tables to run the preprocessing on *)

(** A table with a column of volumes and a column of well names. *)
Definition plate_table : DataFrame :=
  <["vol" := [PInt 10; PStr "20"]]> (<["wells" := [PStr "C1"; PStr "C2"]]> ∅).

(** A block whose volume names the column ["vol"]. *)
Definition by_column : Command :=
  {| name := Some "dilute"; source := Scalar "src:A1";
     destination := Scalar "dst:B1";
     volume := Scalar (PStr "vol"); drop_tip := true |}.

(** A block with an integer volume. *)
Definition by_number : Command :=
  {| name := Some "top up"; source := Scalar "src:A2";
     destination := Scalar "dst:B2";
     volume := Scalar (PInt 5); drop_tip := true |}.

(** A block whose destination ends in the column name ["wells"]. *)
Definition to_column : Command :=
  {| name := None; source := Scalar "src:A1";
     destination := Scalar "dst:wells";
     volume := Scalar (PInt 5); drop_tip := true |}.

(** A block whose source ends in the column name ["wells"]. *)
Definition from_column : Command :=
  {| name := None; source := Scalar "src:wells";
     destination := Scalar "dst:B1";
     volume := Scalar (PInt 5); drop_tip := true |}.

(** A block with a bracketed alias list and a one-element volume list. *)
Definition bracketed : Command :=
  {| name := Some "spread"; source := Scalar "src:[A1, A2]";
     destination := Scalar "dst:B1";
     volume := List [PInt 50]; drop_tip := true |}.

(** A block asking for more than any pipette of [demo_deck] takes. *)
Definition too_much : Command :=
  {| name := None; source := Scalar "src:A1";
     destination := Scalar "dst:B1";
     volume := Scalar (PInt 500); drop_tip := true |}.

(** An unnamed block of two transfers, the second with a volume that no
    pipette of [demo_deck] takes. *)
Definition small_then_too_much : Command :=
  {| name := None; source := Scalar "src:A1";
     destination := Scalar "dst:B1";
     volume := List [PInt 5; PInt 500]; drop_tip := true |}.

(** A named block with lists of two and of three elements. *)
Definition mix : Command :=
  {| name := Some "mix"; source := List ["src:A1"; "src:A2"];
     destination := List ["dst:B1"; "dst:B2"; "dst:B3"];
     volume := Scalar (PInt 50); drop_tip := true |}.

(** ** Notions used to state further properties *)

(** The number of colons of a location. *)
Fixpoint colons (s : string) : nat :=
  match s with
  | EmptyString => 0
  | String c s' => (if Ascii.eqb ":" c then 1 else 0) + colons s'
  end.

(** The values a field holds. *)
Definition elements {A : Type} (f : field A) : list A :=
  match f with
  | Scalar a => [a]
  | List l => l
  end.

Definition is_list {A : Type} (f : field A) : bool :=
  match f with
  | Scalar _ => false
  | List _ => true
  end.

(** A scalar, or a list of [n] elements. *)
Definition fits {A : Type} (n : nat) (f : field A) : bool :=
  match f with
  | Scalar _ => true
  | List l => (length l =? n)%nat
  end.

(** The [else] branch of [_process_instruction]. *)
Definition broadcast (command_block : Command)
  : Command * result (list transfer) :=
  let '(cb, iter_len) := collapse_volume command_block in
  match collapse_source cb iter_len with
  | (cb, Raise e) => (cb, Raise e)
  | (cb, Ok iter_len) =>
      match collapse_destination cb iter_len with
      | (cb, Raise e) => (cb, Raise e)
      | (cb, Ok iter_len) =>
          (cb, Ok (zip3 (iterable (volume cb) iter_len)
                        (iterable (source cb) iter_len)
                        (iterable (destination cb) iter_len)))
      end
  end.

(** A block with two lists of three elements and a scalar destination. *)
Definition three_volumes : Command :=
  {| name := None; source := List ["A:A1"; "A:A2"; "A:A3"];
     destination := Scalar "B:C1";
     volume := List [PInt 50; PInt 100; PInt 75]; drop_tip := true |}.

Definition is_aspirate (c : snippet) : bool :=
  match c with
  | Aspirate _ _ _ _ => true
  | _ => false
  end.

Definition is_dispense (c : snippet) : bool :=
  match c with
  | Dispense _ _ _ _ => true
  | _ => false
  end.

Definition is_header (c : snippet) : bool :=
  match c with
  | BlockHeader _ => true
  | _ => false
  end.


Definition is_any_drop (c : snippet) : bool :=
  match c with
  | DropTip _ => true
  | _ => false
  end.

(** The number of commands of one kind. *)
Definition count (kind : snippet -> bool) (cs : list snippet) : nat :=
  length (List.filter kind cs).

(** The number of triples the blocks of a recipe yield. *)
Definition transfers_of (recipe : list Command) : nat :=
  sum_list
    ((fun cb => match yields cb with
                | Ok ts => length ts
                | Raise _ => 0
                end) <$> recipe).

(** Every aspirate is directly followed by a dispense of the same volume
    with the same pipette, to the well the triple names. *)
Definition paired (cs : list snippet) : Prop :=
  ∀ i mount volume slot well,
    cs !! i = Some (Aspirate mount volume slot well) →
    ∃ slot' well', cs !! S i = Some (Dispense mount volume slot' well').

(** What one transfer appends to the list of commands: [pre] is empty or
    a pick, then come the aspirate, the dispense, a drop when the block
    asks for it, and the empty line. *)
Definition transfer_commands (pre : list snippet) (mount : string)
  (t : transfer) (slot_src slot_dst : option string) (drop_tip : bool)
  : list snippet :=
  pre
  ++ [Aspirate mount t.1.1 slot_src (last_piece (split ":" t.1.2));
      Dispense mount t.1.1 slot_dst (last_piece (split ":" t.2))]
  ++ (if drop_tip then [DropTip mount] else [])
  ++ [Blank].

(** The pipette mount a command names, if it names one. *)
Definition mount_of (c : snippet) : option string :=
  match c with
  | PickTip m _ _ => Some m
  | Aspirate m _ _ _ => Some m
  | Dispense m _ _ _ => Some m
  | DropTip m => Some m
  | BlockHeader _ => None
  | Blank => None
  end.



(** A recipe in which no block drops the tip. *)
Definition keeping_recipe : list Command :=
  [ {| name := Some "fill"; source := Scalar "src:A1";
       destination := List ["dst:B1"; "dst:B2"];
       volume := Scalar (PInt 50); drop_tip := false |};
    {| name := Some "small"; source := Scalar "src:A1";
       destination := List ["dst:B3"; "dst:B4"];
       volume := List [PInt 5; PInt 60]; drop_tip := false |} ].

(** A deck whose only pipette sits on a mount that is neither left nor
    right. *)
Definition odd_deck : Deck := {|
  pipettes :=
    [ {| pipette_mount := "center"; pipette_model := "p300_single_gen2";
         min_volume := 20; max_volume := 300 |} ];
  tip_racks :=
    [ {| rack_slot := "10"; rack_fits := ["p300_single_gen2"];
         rack_cursor := 0 |} ];
  deck_alias := <["src" := "2"]> (<["dst" := "3"]> ∅);
  deck_labware := [("corning_96_wellplate_360ul_flat", LocList ["2"; "3"])];
  well_usage := []
|}.

(** The command names no mount, or the left or the right one. *)
Definition known_mount (c : snippet) : Prop :=
  ∀ m, mount_of c = Some m → m = "left" ∨ m = "right".

(** The source and destination of the block use none of the notations the
    preprocessing rewrites; the volume may be anything. *)
Definition plain_locations (c : Command) : bool :=
  negb (has_alias_list (source c)) && negb (has_alias_list (destination c))
  && match peek (source c), peek (destination c) with
     | Ok s, Ok _ => negb (is_column_name (last_piece (split ":" s)))
     | _, _ => false
     end.

(** A recipe whose last block takes its volumes from the column ["vol"]. *)
Definition column_recipe : list Command := [by_number; by_column].

(** A table whose column ["vol"] has a cell that is no integer. *)
Definition bad_table : DataFrame := <["vol" := [PInt 10; PStr "a lot"]]> ∅.

(** A block with single locations and a column name as its volume. *)
Definition column_block (nm : option string) (col src dst : string)
  (dt : bool) : Command :=
  {| name := nm; source := Scalar src; destination := Scalar dst;
     volume := Scalar (PStr col); drop_tip := dt |}.

(** [postprocess_command] with the table lookup taken out: [lookup col]
    stands for [self.resources[resource_key][col]]. *)
Definition postprocess_with (lookup : string -> result (list pyval))
  (command : Command) : result Command :=
  command ←
    (if has_alias_list (source command)
     then l ← unpack_field (source command); mret (set_source command (List l))
     else mret command);
  peek_elem ← peek (source command);
  let peek_well := last_piece (split ":" peek_elem) in
  command ←
    (if is_column_name peek_well
     then cells ← lookup peek_well;
          new_locations ← column_locations (source command) cells;
          mret (set_source command (List new_locations))
     else mret command);
  command ←
    (if has_alias_list (destination command)
     then l ← unpack_field (destination command);
          mret (set_destination command (List l))
     else mret command);
  _ ← peek (destination command);
  if is_column_name peek_well
  then cells ← lookup peek_well;
       new_locations ← column_locations (destination command) cells;
       mret (set_destination command (List new_locations))
  else mret command.

(** No character of [s] is one of [chars]. *)
Fixpoint none_of (chars s : string) : bool :=
  match s with
  | EmptyString => true
  | String c s' => negb (char_in c chars) && none_of chars s'
  end.

(** An element of a bracketed list: no comma and no bracket. *)
Definition element_ok (e : string) : bool :=
  none_of "," e && none_of "][" e.

(** The alias rule: an element with an alias of its own keeps it, any
    other gets the outer alias. *)
Definition qualify (alias e : string) : string :=
  if contains ":" e then e else alias +:+ ":" +:+ e.

(** One field after a preprocessing that looked nothing up: it is as it
    was, or it was a string and is now its expansion. *)
Definition expanded (f f' : field string) : Prop :=
  f' = f ∨ ∃ s, f = Scalar s ∧ f' = List (_unpack_alias s).

(** What the preprocessing without tables may change of a block: the
    source and the destination, by alias expansion. *)
Definition only_expanded (c c' : Command) : Prop :=
  name c' = name c ∧ volume c' = volume c ∧ drop_tip c' = drop_tip c ∧
  expanded (source c) (source c') ∧
  expanded (destination c) (destination c').

(** A recipe with a bracketed source, as [load_config] may get it. *)
Definition bracketed_config : ProtocolConfig :=
  {| config_resources :=
       [ {| resource_name := "plate"; resource_location := "plate.xlsx" |} ];
     config_commands :=
       [ {| name := Some "spread"; source := Scalar "src:[A1, A2]";
            destination := Scalar "dst:B1";
            volume := Scalar (PInt 50); drop_tip := true |} ] |}.

(** A block whose source names the column ["wells"] of a table. *)
Definition wells_block : Command :=
  {| name := None; source := Scalar ("src" +:+ ":" +:+ "wells");
     destination := Scalar "dst:B1";
     volume := Scalar (PInt 5); drop_tip := true |}.

(** ** The object and its resource file *)

(** A [PathLike] value: a [str] or a [pathlib.Path]. *)
Inductive pathlike : Type :=
| PathStr (s : string)
| PathObj (s : string).

(** The truth value of an optional path: [None] and the empty string are
    false, a [Path] object is always true. *)
Definition truthy (p : option pathlike) : bool :=
  match p with
  | None => false
  | Some (PathStr s) => negb (String.length s =? 0)%nat
  | Some (PathObj _) => true
  end.

(** [Path(p)]. *)
Definition to_path (p : pathlike) : pathlike :=
  match p with
  | PathStr s => PathObj s
  | PathObj s => PathObj s
  end.

(** The [if] chain that closes [yaml_to_protocol]: the call of
    [dump_resource_json] it makes.  [None] is no call, [Some None] the
    call without [out_file], which writes to a file with a generated
    name, and [Some (Some p)] the call with [out_file=p]. *)
Definition resource_dump
  (resource_file_out resource_file self_resource_file : option pathlike)
  (write_resources overwrite_resources_json : bool)
  : option (option pathlike) :=
  match resource_file_out with
  | Some p => Some (Some p)
  | None =>
      if truthy resource_file && write_resources
      then Some resource_file
      else if truthy self_resource_file && write_resources
              && overwrite_resources_json
      then Some self_resource_file
      else if write_resources then Some None
      else None
  end.

(** The attributes of a [ProtoPiler] that [__init__], [load_config] and
    the opening of [yaml_to_protocol] set.  An attribute that was never
    assigned is [None], as is one that holds Python's [None].
    [load_calls] is no attribute: it records the calls of [load_config]
    on the object that returned, each with its two arguments, oldest
    first. *)
Record ProtoPiler (R : Type) : Type := {
  self_resource_file : option pathlike;
  self_config : option ProtocolConfig;
  self_config_path : option pathlike;
  self_resources : option Resources;
  self_resource_manager : option R;
  self_commands : option (list Command);
  load_calls : list (option pathlike * option pathlike)
}.

Arguments self_resource_file {R} _.
Arguments self_config {R} _.
Arguments self_config_path {R} _.
Arguments self_resources {R} _.
Arguments self_resource_manager {R} _.
Arguments self_commands {R} _.
Arguments load_calls {R} _.

Section Object.

Context {R : Type}.

(** [ProtocolConfig.from_yaml(config_path)]. *)
Variable from_yaml : option pathlike -> result ProtocolConfig.

(** [pd.read_excel(location, header=0)]. *)
Variable read_excel : string -> result DataFrame.

(** [ResourceManager(self.config.equipment, self.resource_file)]. *)
Variable new_manager : ProtocolConfig -> option pathlike -> result R.

(** [load_config] as a method: every attribute it assigns, in the order
    of the source, and the call added to [load_calls].  The object given
    is left behind when an exception is raised. *)
Definition method_load_config (self : ProtoPiler R)
  (config_path resource_file : option pathlike) : result (ProtoPiler R) :=
  config ← from_yaml config_path;
  loaded ← load_resources read_excel (config_resources config);
  manager ← new_manager config resource_file;
  commands ← _postprocess_commands loaded.1 (config_commands config);
  mret {| self_resource_file := resource_file;
          self_config := Some config;
          self_config_path := config_path;
          self_resources := Some loaded.1;
          self_resource_manager := Some manager;
          self_commands := Some commands;
          load_calls := load_calls self ++ [(config_path, resource_file)] |}.

(** [ProtoPiler(config_path, resource_file=resource_file)]. *)
Definition init (config_path resource_file : option pathlike)
  : result (ProtoPiler R) :=
  let self :=
    {| self_resource_file :=
         if truthy resource_file then to_path <$> resource_file
         else resource_file;
       self_config := None;
       self_config_path := None;
       self_resources := None;
       self_resource_manager := None;
       self_commands := None;
       load_calls := [] |} in
  if truthy config_path
  then method_load_config self config_path resource_file
  else mret self.

(** The two [if] statements that open [yaml_to_protocol].  [not
    self.config] holds exactly when no recipe was loaded: a loaded recipe
    is an object, which is true. *)
Definition ensure_loaded (self : ProtoPiler R)
  (config_path resource_file : option pathlike) : result (ProtoPiler R) :=
  self ←
    (match self_config self with
     | None => method_load_config self config_path None
     | Some _ => mret self
     end);
  if truthy resource_file && negb (truthy (self_resource_file self))
  then method_load_config self (self_config_path self) resource_file
  else mret self.

(** The loading done by [OT2_Driver.compile_protocol]: it calls
    [load_config] on its [ProtoPiler] and then [yaml_to_protocol], whose
    opening statements follow, with the same two paths. *)
Definition compile_protocol_load (self : ProtoPiler R)
  (config_path resource_file : option pathlike) : result (ProtoPiler R) :=
  self ← method_load_config self config_path resource_file;
  ensure_loaded self config_path resource_file.

End Object.

(** A parser and a manager constructor to run the object on. *)
Definition demo_from_yaml (config_path : option pathlike)
  : result ProtocolConfig :=
  match config_path with
  | Some _ => Ok bracketed_config
  | None => Raise TypeError
  end.

Definition demo_new_manager (config : ProtocolConfig)
  (resource_file : option pathlike) : result Deck :=
  Ok demo_deck.

(** The object that [ProtoPiler()] makes: nothing is loaded. *)
Definition fresh_object : ProtoPiler Deck :=
  {| self_resource_file := None;
     self_config := None;
     self_config_path := None;
     self_resources := None;
     self_resource_manager := None;
     self_commands := None;
     load_calls := [] |}.

(** * Properties *)

(** ** The resource loader *)

(** C10: whatever list of resources [load_resources] is given, and whatever
    the spreadsheet reader would return, [self.resources] is empty after
    the call and no location was read. *)
Theorem load_resources_loads_nothing :
  ∀ (read_excel : string → result DataFrame) (resources : list Resource),
    load_resources read_excel resources = Ok ([], []).
Proof. intros read_excel resources. reflexivity. Qed.

(** After the loader, [resource_key] is never bound. *)
Lemma load_resources_no_key read_excel resources loaded :
  load_resources read_excel resources = Ok loaded →
  first_resource_key loaded.1 = None.
Proof. intros [= <-]. reflexivity. Qed.

(** ** The broadcast resolver *)

Section Zip3.

Context {A B C : Type}.

Lemma zip3_repeat_23 (l : list A) (b : B) (c : C) :
  zip3 l (repeat b (length l)) (repeat c (length l)) = (λ a, (a, b, c)) <$> l.
Proof. induction l as [|a l IH]; simpl; [done | by rewrite IH]. Qed.

Lemma zip3_repeat_13 (a : A) (l : list B) (c : C) :
  zip3 (repeat a (length l)) l (repeat c (length l)) = (λ b, (a, b, c)) <$> l.
Proof. induction l as [|b l IH]; simpl; [done | by rewrite IH]. Qed.

Lemma zip3_repeat_12 (a : A) (b : B) (l : list C) :
  zip3 (repeat a (length l)) (repeat b (length l)) l = (λ c, (a, b, c)) <$> l.
Proof. induction l as [|c l IH]; simpl; [done | by rewrite IH]. Qed.

End Zip3.

(** A list of two or more elements is no one-element list. *)
Lemma long_list {A : Type} (l : list A) :
  1 < length l → ∃ x y l', l = x :: y :: l'.
Proof. destruct l as [|x [|y l']]; simpl; [lia | lia | eauto]. Qed.

(** C2: when exactly one of volume, source and destination is a list of
    [n > 1] elements and the other two are scalars, the block yields [n]
    triples, the i-th made of the i-th element of the list and the two
    scalars. *)
Theorem broadcast_one_list (nm : option string) (dt : bool) (n : nat) :
  1 < n →
  (∀ vs s d, length vs = n →
     yields {| name := nm; source := Scalar s; destination := Scalar d;
               volume := List vs; drop_tip := dt |}
     = Ok ((λ v, (v, s, d)) <$> vs)) ∧
  (∀ v ss d, length ss = n →
     yields {| name := nm; source := List ss; destination := Scalar d;
               volume := Scalar v; drop_tip := dt |}
     = Ok ((λ s, (v, s, d)) <$> ss)) ∧
  (∀ v s ds, length ds = n →
     yields {| name := nm; source := Scalar s; destination := List ds;
               volume := Scalar v; drop_tip := dt |}
     = Ok ((λ d, (v, s, d)) <$> ds)).
Proof.
  intros Hn. split; [|split].
  - intros vs s d Hlen.
    destruct (long_list vs) as (v1 & v2 & vs' & ->); [lia|].
    unfold yields, _process_instruction; cbn -[zip3 repeat].
    by rewrite <- zip3_repeat_23.
  - intros v ss d Hlen.
    destruct (long_list ss) as (s1 & s2 & ss' & ->); [lia|].
    unfold yields, _process_instruction.
    destruct v; cbn -[zip3 repeat]; by rewrite <- zip3_repeat_13.
  - intros v s ds Hlen.
    destruct (long_list ds) as (d1 & d2 & ds' & ->); [lia|].
    unfold yields, _process_instruction.
    destruct v; cbn -[zip3 repeat]; by rewrite <- zip3_repeat_12.
Qed.

Lemma broadcast_one_list_witness :
  1 < 3 ∧
  yields {| name := None; source := List ["A:A1"; "A:A2"; "A:A3"];
            destination := Scalar "B:C1";
            volume := Scalar (PInt 50); drop_tip := true |}
  = Ok [(PInt 50, "A:A1", "B:C1"); (PInt 50, "A:A2", "B:C1");
        (PInt 50, "A:A3", "B:C1")].
Proof.
  split; [lia|].
  apply (proj1 (proj2 (broadcast_one_list None true 3 ltac:(lia)))).
  reflexivity.
Defined.

(** C3: a one-element source list is not replaced by its element when no
    longer list precedes it.  With volume 50, source [["A:A1"]] and a
    two-element destination the block raises, while the same block with
    the source written as the scalar ["A:A1"] yields two triples.  And
    when the one-element source follows a longer volume list, the
    iteration length becomes the number of characters of the element: six
    volumes with source [["A:A1"]] yield four triples, not six.  A
    one-element volume list between a scalar source and a scalar
    destination is replaced by its element, but the iteration length stays
    0 and nothing is yielded. *)
Theorem singleton_source_not_collapsed :
  yields {| name := None; source := List ["A:A1"];
            destination := List ["B:B1"; "B:B2"];
            volume := Scalar (PInt 50); drop_tip := true |}
  = Raise (PyException msg_different) ∧
  yields {| name := None; source := Scalar "A:A1";
            destination := List ["B:B1"; "B:B2"];
            volume := Scalar (PInt 50); drop_tip := true |}
  = Ok [(PInt 50, "A:A1", "B:B1"); (PInt 50, "A:A1", "B:B2")] ∧
  yields {| name := None; source := List ["A:A1"];
            destination := Scalar "B:B1";
            volume := List (PInt <$> [1; 2; 3; 4; 5; 6]%Z); drop_tip := true |}
  = Ok ((λ v, (PInt v, "A:A1", "B:B1")) <$> [1; 2; 3; 4]%Z) ∧
  yields {| name := None; source := Scalar "A:A1";
            destination := Scalar "B:B1";
            volume := List (PInt <$> [1; 2; 3; 4; 5; 6]%Z); drop_tip := true |}
  = Ok ((λ v, (PInt v, "A:A1", "B:B1")) <$> [1; 2; 3; 4; 5; 6]%Z) ∧
  yields {| name := None; source := Scalar "A:A1";
            destination := Scalar "B:B1";
            volume := List [PInt 50]; drop_tip := true |}
  = Ok [] ∧
  yields {| name := None; source := Scalar "A:A1";
            destination := Scalar "B:B1";
            volume := Scalar (PInt 50); drop_tip := true |}
  = Ok [(PInt 50, "A:A1", "B:B1")].
Proof. repeat split; reflexivity. Qed.

(** What the code does of it: next to a list, or with a volume that is
    no integer, a one-element volume list yields what its element
    yields. *)
Lemma singleton_volume_collapsed (nm : option string) (dt : bool)
  (v : pyval) (src dst : field string) :
  (∀ z, v ≠ PInt z) ∨ (∃ l, src = List l) ∨ (∃ l, dst = List l) →
  yields {| name := nm; source := src; destination := dst;
            volume := List [v]; drop_tip := dt |}
  = yields {| name := nm; source := src; destination := dst;
              volume := Scalar v; drop_tip := dt |}.
Proof.
  intros Hcase. unfold yields, _process_instruction.
  destruct v as [z|col], src as [s|ss], dst as [d|ds]; try reflexivity.
  destruct Hcase as [Hz|[[l Hl]|[l Hl]]]; [by destruct (Hz z) | done | done].
Qed.

(** C4: a volume list of three, a destination list of two and the
    one-element source [["A1"]] do not raise: the source is replaced by
    ["A1"], whose two characters become the iteration length, the
    destination list agrees with it, and two triples are yielded. *)
Theorem unequal_lists_not_rejected :
  yields {| name := None; source := List ["A1"];
            destination := List ["B1"; "B2"];
            volume := List [PInt 10; PInt 20; PInt 30]; drop_tip := true |}
  = Ok [(PInt 10, "A1", "B1"); (PInt 20, "A1", "B2")].
Proof. reflexivity. Qed.

(** Without one-element lists the resolver does reject lists of unequal
    lengths. *)
Lemma unequal_lists_rejected (cb : Command) :
  no_singleton cb = true →
  (∃ vs ss, volume cb = List vs ∧ source cb = List ss ∧
            1 < length vs ∧ 1 < length ss ∧ length vs ≠ length ss) ∨
  (∃ vs ds, volume cb = List vs ∧ destination cb = List ds ∧
            1 < length vs ∧ 1 < length ds ∧ length vs ≠ length ds) ∨
  (∃ ss ds, source cb = List ss ∧ destination cb = List ds ∧
            1 < length ss ∧ 1 < length ds ∧ length ss ≠ length ds) →
  yields cb = Raise (PyException msg_multiple) ∨
  yields cb = Raise (PyException msg_different).
Proof.
  destruct cb as [nm src dst vol dt]. unfold no_singleton, yields; simpl.
  intros Hns Hcase.
  destruct Hcase as [(vs & ss & -> & -> & Hv & Hs & Hne)
                    |[(vs & ds & -> & -> & Hv & Hd & Hne)
                     |(ss & ds & -> & -> & Hs & Hd & Hne)]].
  - destruct (long_list vs) as (v1 & v2 & vs' & ->); [done|].
    destruct (long_list ss) as (s1 & s2 & ss' & ->); [done|].
    left. unfold _process_instruction, collapse_volume, collapse_source.
    cbn [volume source destination set_volume set_source length].
    destruct (Nat.eqb_spec (S (S (length ss'))) (S (S (length vs')))) as [E|_];
      [simpl in Hne; lia | reflexivity].
  - destruct (long_list vs) as (v1 & v2 & vs' & ->); [done|].
    destruct (long_list ds) as (d1 & d2 & ds' & ->); [done|].
    unfold _process_instruction, collapse_volume, collapse_source,
      collapse_destination.
    cbn [volume source destination set_volume set_source length].
    destruct src as [s|ss].
    + right. cbn.
      destruct (Nat.eqb_spec (length ds') (length vs')) as [E|_];
        [simpl in Hne; lia | reflexivity].
    + destruct (Nat.eqb_spec (length ss) (S (S (length vs')))) as [E|NE].
      * right. cbn. rewrite E. cbn.
        destruct (Nat.eqb_spec (length ds') (length vs')) as [E'|_];
          [simpl in Hne; lia | reflexivity].
      * left. destruct ss as [|s1 [|s2 ss']]; [reflexivity | | reflexivity].
        simpl in Hns. discriminate Hns.
  - destruct (long_list ss) as (s1 & s2 & ss' & ->); [done|].
    destruct (long_list ds) as (d1 & d2 & ds' & ->); [done|].
    unfold _process_instruction, collapse_volume, collapse_source,
      collapse_destination.
    destruct vol as [v|[|v1 [|v2 vs']]].
    + right. destruct v; cbn;
        (destruct (Nat.eqb_spec (length ds') (length ss')) as [E|_];
          [simpl in Hne; lia | reflexivity]).
    + right. cbn.
      destruct (Nat.eqb_spec (length ds') (length ss')) as [E|_];
        [simpl in Hne; lia | reflexivity].
    + done.
    + cbn [volume source destination set_volume set_source length].
      destruct (Nat.eqb_spec (S (S (length ss'))) (S (S (length vs')))) as [E|NE].
      * right. cbn.
        destruct (Nat.eqb_spec (length ds') (length ss')) as [E'|_];
          [simpl in Hne; lia | reflexivity].
      * left. reflexivity.
Qed.

(** ** Command preprocessing *)

(** C1: only the last block has its volume looked up.  Of two blocks that
    both name the column ["vol"], the first keeps the name and the second
    gets the integers of the column; and when the last block has an
    integer volume, a column name in an earlier block stays as it is
    whatever tables are loaded, also when the recipe comes in through
    [load_config]. *)
Theorem volume_column_only_in_last_block :
  _postprocess_commands [("plate", plate_table)] [by_column; by_column]
  = Ok [by_column; set_volume by_column (List [PInt 10; PInt 20])] ∧
  (∀ resources : Resources,
     _postprocess_commands resources [by_column; by_number]
     = Ok [by_column; by_number]) ∧
  (∀ read_excel (resources : list Resource),
     load_config read_excel
       {| config_resources := resources;
          config_commands := [by_column; by_number] |}
     = Ok ([], [by_column; by_number])).
Proof.
  split; [vm_compute; reflexivity|].
  split; [intros resources; reflexivity | intros read_excel resources; reflexivity].
Qed.

(** Through [load_config] a column name in the last block cannot be looked
    up either: no table was loaded and [resource_key] is unbound. *)
Lemma load_config_column_unbound read_excel (resources : list Resource) :
  load_config read_excel
    {| config_resources := resources;
       config_commands := [by_column; by_column] |}
  = Raise (UnboundLocalError "resource_key").
Proof. reflexivity. Qed.

(** C5: the destination is tested with the last segment of the source.
    A destination ending in the column name ["wells"] is left alone, with
    no table lookup, when the source ends in a well name; and a
    destination ending in the well name ["B1"] is replaced by the rows of
    the column the source names. *)
Theorem destination_follows_source_segment :
  (∀ resources : Resources,
     _postprocess_commands resources [to_column] = Ok [to_column]) ∧
  _postprocess_commands [("plate", plate_table)] [from_column]
  = Ok [ {| name := None; source := List ["src:C1"; "src:C2"];
            destination := List ["dst:C1"; "dst:C2"];
            volume := Scalar (PInt 5); drop_tip := true |} ].
Proof. split; [intros resources; reflexivity | vm_compute; reflexivity]. Qed.

(** ** Dictionaries and the result monad *)

Lemma bind_Ok {A B : Type} (e : result A) (f : A → result B) (b : B) :
  e ≫= f = Ok b → ∃ a, e = Ok a ∧ f a = Ok b.
Proof. destruct e as [a|x]; simpl; [eauto | discriminate]. Qed.

Lemma dict_item_Ok {V : Type} (k : string) (d : dict V) (v : V) :
  dict_item k d = Ok v → dict_get k d = Some v.
Proof. unfold dict_item. destruct (dict_get k d); congruence. Qed.

Lemma dict_get_set {V : Type} (k k' : string) (v : V) (d : dict V) :
  dict_get k (dict_set k' v d)
  = if String.eqb k k' then Some v else dict_get k d.
Proof.
  induction d as [|[k0 v0] d IH]; simpl.
  - reflexivity.
  - destruct (String.eqb_spec k' k0) as [->|Hne]; simpl.
    + destruct (String.eqb_spec k k0); reflexivity.
    + rewrite IH. destruct (String.eqb_spec k k0) as [->|];
        [|reflexivity].
      destruct (String.eqb_spec k0 k'); congruence.
Qed.

Lemma dict_get_None {V : Type} (k : string) (d : dict V) :
  k ∉ d.*1 → dict_get k d = None.
Proof.
  induction d as [|[k0 v0] d IH]; simpl; [done|].
  intros Hk. apply not_elem_of_cons in Hk as [Hne Hk].
  destruct (String.eqb_spec k k0); [done | auto].
Qed.

Lemma dict_set_keys {V : Type} (k : string) (v : V) (d : dict V) :
  (dict_set k v d).*1 = if bool_decide (k ∈ d.*1) then d.*1 else d.*1 ++ [k].
Proof.
  induction d as [|[k0 v0] d IH]; [reflexivity|].
  cbn [dict_set]. destruct (String.eqb_spec k k0) as [->|Hne];
    rewrite !fmap_cons; cbn [fst].
  - rewrite bool_decide_eq_true_2; [done | apply list_elem_of_here].
  - rewrite IH. destruct (decide (k ∈ d.*1)) as [Hin|Hout].
    + rewrite !bool_decide_eq_true_2; [done | by apply list_elem_of_further | done].
    + rewrite !bool_decide_eq_false_2; [done | | done].
      intros [?|?]%elem_of_cons; done.
Qed.

Lemma dict_set_NoDup {V : Type} (k : string) (v : V) (d : dict V) :
  NoDup d.*1 → NoDup (dict_set k v d).*1.
Proof.
  intros Hd. rewrite dict_set_keys. case_bool_decide as Hk; [done|].
  apply NoDup_app. split; [done|]. split; [|apply NoDup_singleton].
  intros x Hx ->%list_elem_of_singleton. done.
Qed.

(** ** Counting picks and drops *)

Lemma picks_snoc (m : string) (cs : list snippet) (c : snippet) :
  picks m (cs ++ [c]) = picks m cs + (if is_pick m c then 1 else 0).
Proof.
  unfold picks. rewrite List.filter_app, length_app. simpl.
  by destruct (is_pick m c).
Qed.

Lemma drops_snoc (m : string) (cs : list snippet) (c : snippet) :
  drops m (cs ++ [c]) = drops m cs + (if is_drop m c then 1 else 0).
Proof.
  unfold drops. rewrite List.filter_app, length_app. simpl.
  by destruct (is_drop m c).
Qed.

Lemma holding_set (x m : string) (b : bool) (tl : dict bool) :
  holding x (dict_set m b tl)
  = if String.eqb x m then (if b then 1 else 0) else holding x tl.
Proof.
  unfold holding. rewrite dict_get_set. by destruct (String.eqb x m).
Qed.

Lemma picks_trailing (m : string) (tl : dict bool) :
  picks m (trailing_drops tl) = 0.
Proof.
  unfold picks, trailing_drops.
  induction tl as [|[k [|]] tl IH]; simpl; done.
Qed.

Lemma drops_trailing (m : string) (tl : dict bool) :
  NoDup tl.*1 → drops m (trailing_drops tl) = holding m tl.
Proof.
  unfold drops, trailing_drops, holding.
  induction tl as [|[k b] tl IH]; simpl; [done|].
  intros [Hk Hnd]%NoDup_cons. specialize (IH Hnd).
  destruct (String.eqb_spec m k) as [->|Hne].
  - rewrite (dict_get_None k tl Hk) in IH.
    destruct b; simpl; [rewrite String.eqb_refl; simpl|]; by rewrite IH.
  - destruct b; simpl; [|done].
    destruct (String.eqb_spec m k); [done|]. done.
Qed.

Lemma holding_le (m : string) (tl : dict bool) : (holding m tl ≤ 1)%nat.
Proof. unfold holding. destruct (dict_get m tl) as [[|]|]; lia. Qed.

Lemma alternating_nil : alternating [].
Proof. intros p m ->%prefix_nil_inv. unfold picks, drops. simpl. lia. Qed.

(** One more command keeps the alternation when the counts of the longer
    list are within the bounds. *)
Lemma alternating_snoc (cs : list snippet) (c : snippet) :
  alternating cs →
  (∀ m, (drops m (cs ++ [c]) ≤ picks m (cs ++ [c])
                               ≤ drops m (cs ++ [c]) + 1)%nat) →
  alternating (cs ++ [c]).
Proof.
  intros Hcs Hnew p m [k Hk].
  destruct k as [|x k _] using rev_ind.
  - rewrite app_nil_r in Hk. subst p. apply Hnew.
  - rewrite app_assoc in Hk. apply app_inj_tail in Hk as [-> _].
    apply Hcs. by eexists.
Qed.

(** The closing loop: the tips still loaded are dropped, one drop each. *)
Lemma trailing_alternating (tl : dict bool) :
  ∀ cs, NoDup tl.*1 → alternating cs →
        (∀ m, picks m cs = drops m cs + holding m tl) →
        alternating (cs ++ trailing_drops tl).
Proof.
  induction tl as [|[k b] tl IH]; intros cs Hnd Halt Hbal.
  - unfold trailing_drops. simpl. by rewrite app_nil_r.
  - rewrite fmap_cons in Hnd. apply NoDup_cons in Hnd as [Hk Hnd].
    assert (∀ m, holding m ((k, b) :: tl)
                 = if String.eqb m k then (if b then 1 else 0) else holding m tl)
      as Hhold.
    { intros m. unfold holding. cbn [dict_get].
      by destruct (String.eqb m k), b. }
    pose proof (dict_get_None k tl Hk) as Hnone.
    assert (holding k tl = 0) as Hk0 by (unfold holding; by rewrite Hnone).
    destruct b.
    + change (trailing_drops ((k, true) :: tl))
        with ([DropTip k] ++ trailing_drops tl).
      rewrite app_assoc. apply IH; [done| |].
      * apply alternating_snoc; [done|]. intros m.
        rewrite picks_snoc, drops_snoc, Hbal, Hhold. simpl.
        pose proof (holding_le m tl). destruct (String.eqb m k); lia.
      * intros m. rewrite picks_snoc, drops_snoc, Hbal, Hhold. simpl.
        destruct (String.eqb_spec m k) as [->|]; lia.
    + change (trailing_drops ((k, false) :: tl)) with (trailing_drops tl).
      apply IH; [done..|]. intros m. rewrite Hbal, Hhold.
      destruct (String.eqb_spec m k) as [->|]; lia.
Qed.

(** ** The tip state machine of [_create_commands] *)

Section TipBalance.

Context {R : Type} `{ResourceManager R}.

Lemma balanced_emit (st : state R) (c : snippet) :
  (∀ m, is_pick m c = false) → (∀ m, is_drop m c = false) →
  balanced st → balanced (emit st c).
Proof.
  intros Hp Hd (Hnd & Hbal & Halt). split; [done|]. split.
  - intros m. simpl. rewrite picks_snoc, drops_snoc, Hp, Hd, Hbal. lia.
  - simpl. apply alternating_snoc; [done|]. intros m.
    rewrite picks_snoc, drops_snoc, Hp, Hd, Hbal.
    pose proof (holding_le m (tip_loaded st)). lia.
Qed.

(** A tip is picked only for a mount that holds none; afterwards the mount
    holds one. *)
Lemma check_tip_balanced (m : string) (st st' : state R) :
  balanced st → check_tip m st = Ok st' →
  balanced st' ∧ dict_get m (tip_loaded st') = Some true.
Proof.
  intros Hst Hrun. pose proof Hst as (Hnd & Hbal & Halt).
  unfold check_tip in Hrun.
  apply bind_Ok in Hrun as (loaded & Hget%dict_item_Ok & Hrun).
  destruct loaded; simpl in Hrun.
  { injection Hrun as <-. by split. }
  destruct (mount_to_pipette (resource_manager st) !! m) as [pn|];
    [|discriminate].
  apply bind_Ok in Hrun as ([[rack well] rm] & Htip & Hrun).
  injection Hrun as <-.
  assert (holding m (tip_loaded st) = 0) as Hm0
    by (unfold holding; by rewrite Hget).
  split; [split; [|split]|]; simpl.
  - by apply dict_set_NoDup.
  - intros x. rewrite picks_snoc, drops_snoc, holding_set, Hbal. simpl.
    destruct (String.eqb_spec x m) as [->|Hne]; lia.
  - apply alternating_snoc; [done|]. intros x.
    rewrite picks_snoc, drops_snoc, Hbal. simpl.
    pose proof (holding_le x (tip_loaded st)).
    destruct (String.eqb_spec x m) as [->|Hne]; lia.
  - by rewrite dict_get_set, String.eqb_refl.
Qed.

Lemma endpoint_balanced (mk : option string → string → snippet) (loc : string)
  (st st' : state R) :
  (∀ slot well m, is_pick m (mk slot well) = false) →
  (∀ slot well m, is_drop m (mk slot well) = false) →
  balanced st → endpoint mk loc st = Ok st' →
  balanced st' ∧ tip_loaded st' = tip_loaded st.
Proof.
  intros Hp Hd Hbal Hrun. unfold endpoint in Hrun.
  apply bind_Ok in Hrun as (slot & Hslot & Hrun).
  apply bind_Ok in Hrun as (rm & Hrm & Hrun).
  injection Hrun as <-. split; [|done].
  apply (balanced_emit st (mk slot (last_piece (split ":" loc)))) in Hbal;
    [|auto..].
  exact Hbal.
Qed.

(** The tip is dropped from a mount that holds one. *)
Lemma transfer_step_balanced (bn : string) (dt : bool) (st st' : state R)
  (t : transfer) :
  balanced st → transfer_step bn dt st t = Ok st' → balanced st'.
Proof.
  intros Hbal Hrun. destruct t as [[v src] dst]. unfold transfer_step in Hrun.
  apply bind_Ok in Hrun as (om & Hdet & Hrun).
  destruct om as [m|]; [|discriminate].
  apply bind_Ok in Hrun as (st1 & H1 & Hrun).
  apply bind_Ok in Hrun as (st2 & H2 & Hrun).
  apply bind_Ok in Hrun as (st3 & H3 & Hrun).
  injection Hrun as <-.
  apply check_tip_balanced in H1 as [Hb1 Hm1]; [|done].
  apply endpoint_balanced in H2 as [Hb2 Ht2]; [|done..].
  apply endpoint_balanced in H3 as [Hb3 Ht3]; [|done..].
  apply balanced_emit; [done..|].
  destruct dt; [|done].
  destruct Hb3 as (Hnd & Hbal3 & Halt3).
  assert (holding m (tip_loaded st3) = 1) as Hm1'
    by (unfold holding; by rewrite Ht3, Ht2, Hm1).
  split; [|split]; simpl.
  - by apply dict_set_NoDup.
  - intros x. rewrite picks_snoc, drops_snoc, holding_set, Hbal3. simpl.
    destruct (String.eqb_spec x m) as [->|Hne]; lia.
  - apply alternating_snoc; [done|]. intros x.
    rewrite picks_snoc, drops_snoc, Hbal3. simpl.
    pose proof (holding_le x (tip_loaded st3)).
    destruct (String.eqb_spec x m) as [->|Hne]; lia.
Qed.

Lemma transfer_loop_balanced (bn : string) (dt : bool) (ts : list transfer) :
  ∀ st st' : state R,
    balanced st → transfer_loop bn dt st ts = Ok st' → balanced st'.
Proof.
  induction ts as [|t ts IH]; intros st st' Hbal Hrun; simpl in Hrun.
  - by injection Hrun as <-.
  - apply bind_Ok in Hrun as (st1 & H1 & Hrun).
    eapply IH; [|exact Hrun]. by eapply transfer_step_balanced.
Qed.

Lemma block_loop_balanced (blocks : list Command) :
  ∀ (i : nat) (st st' : state R) (blocks' : list Command),
    balanced st → block_loop i blocks st = Ok (blocks', st') → balanced st'.
Proof.
  induction blocks as [|cb blocks IH]; intros i st st' blocks' Hbal Hrun;
    simpl in Hrun.
  - by injection Hrun as _ <-.
  - destruct (_process_instruction cb) as [cb' yielded].
    apply bind_Ok in Hrun as (ts & -> & Hrun).
    apply bind_Ok in Hrun as (st1 & H1 & Hrun).
    apply bind_Ok in Hrun as ([rest st2] & H2 & Hrun).
    injection Hrun as _ <-.
    eapply IH; [|exact H2].
    eapply transfer_loop_balanced; [|exact H1].
    by apply balanced_emit.
Qed.

End TipBalance.

(** C6: in the list a successful [_create_commands] returns, every mount
    has as many pick-tip commands as drop-tip commands; and up to any
    point of the list a mount has as many picks as drops or one more, so a
    tip is picked only by a mount that holds none and dropped only by a
    mount that holds one. *)
Theorem tip_balance {R : Type} `{ResourceManager R} (rm : R)
  (recipe : list Command) (out : compiled R) :
  _create_commands rm recipe = Ok out →
  (∀ mount, picks mount (protocol out) = drops mount (protocol out)) ∧
  alternating (protocol out).
Proof.
  intros Hrun. unfold _create_commands in Hrun.
  apply bind_Ok in Hrun as ([blocks st] & Hloop & Hrun).
  injection Hrun as <-. simpl.
  apply block_loop_balanced in Hloop as (Hnd & Hbal & Halt).
  - split; [|by apply trailing_alternating].
    intros mount. unfold picks, drops in *.
    rewrite !List.filter_app, !length_app.
    fold (picks mount (trailing_drops (tip_loaded st))).
    fold (drops mount (trailing_drops (tip_loaded st))).
    rewrite picks_trailing, (drops_trailing _ _ Hnd). rewrite Hbal. lia.
  - split; [|split]; simpl.
    + apply NoDup_cons_2; [|apply NoDup_singleton].
      rewrite list_elem_of_singleton. discriminate.
    + intros m. unfold holding. simpl.
      by destruct (String.eqb m "left"), (String.eqb m "right").
    + apply alternating_nil.
Qed.

Lemma tip_balance_witness :
  ∃ out, _create_commands demo_deck demo_recipe = Ok out ∧
         picks "right" (protocol out) = 2 ∧
         (∀ mount, picks mount (protocol out) = drops mount (protocol out)) ∧
         alternating (protocol out).
Proof.
  eexists. split; [vm_compute; reflexivity|]. split; [reflexivity|].
  eapply (tip_balance demo_deck demo_recipe). vm_compute. reflexivity.
Defined.

(** ** Location tokens *)

Lemma prefix_colon (c : ascii) (s : string) :
  String.prefix ":" (String c s) = Ascii.eqb ":" c.
Proof.
  cbn [String.prefix]. destruct (ascii_dec ":" c) as [<-|Hne].
  - rewrite Ascii.eqb_refl. by destruct s.
  - symmetry. by apply Ascii.eqb_neq.
Qed.

Lemma contains_colon_cons (c : ascii) (s : string) :
  contains ":" (String c s) = Ascii.eqb ":" c || contains ":" s.
Proof. cbn [contains]. by rewrite prefix_colon. Qed.

Lemma append_cons (x : ascii) (a b : string) :
  String x a +:+ b = String x (a +:+ b).
Proof. reflexivity. Qed.

Lemma append_assoc (a b c : string) : (a +:+ b) +:+ c = a +:+ (b +:+ c).
Proof.
  induction a as [|x a IH]; [done|]. by rewrite !append_cons, IH.
Qed.

Lemma append_empty_r (a : string) : a +:+ "" = a.
Proof.
  induction a as [|x a IH]; [done|]. by rewrite append_cons, IH.
Qed.

(** A string without colon is a single piece. *)
Lemma split_no_colon (s acc : string) :
  contains ":" s = false → split_go ":" 0 s acc = [acc +:+ s].
Proof.
  revert acc. induction s as [|c s IH]; intros acc Hs.
  - simpl. by rewrite append_empty_r.
  - rewrite contains_colon_cons in Hs. apply orb_false_elim in Hs as [Hc Hs].
    cbn [split_go]. rewrite prefix_colon, Hc, (IH _ Hs), append_assoc. done.
Qed.

(** [plate:well] splits into its two parts. *)
Lemma split_one_colon (plate well acc : string) :
  contains ":" plate = false → contains ":" well = false →
  split_go ":" 0 (plate +:+ ":" +:+ well) acc = [acc +:+ plate; well].
Proof.
  revert acc. induction plate as [|c p IH]; intros acc Hp Hw.
  - change ("" +:+ ":" +:+ well) with (String ":" well).
    cbn [split_go]. rewrite prefix_colon, Ascii.eqb_refl.
    cbn [String.length Nat.sub]. rewrite (split_no_colon _ _ Hw).
    by rewrite append_empty_r.
  - rewrite contains_colon_cons in Hp. apply orb_false_elim in Hp as [Hc Hp].
    rewrite append_cons. cbn [split_go].
    rewrite prefix_colon, Hc, (IH _ Hp Hw), append_assoc. done.
Qed.

Lemma contains_colon_app (plate well : string) :
  contains ":" (plate +:+ ":" +:+ well) = true.
Proof.
  induction plate as [|c p IH].
  - change ("" +:+ ":" +:+ well) with (String ":" well).
    by rewrite contains_colon_cons, Ascii.eqb_refl.
  - rewrite append_cons, contains_colon_cons, IH.
    by destruct (Ascii.eqb ":" c).
Qed.

Lemma wellplate_step_slot (location : option string)
  (entry : string * labware_loc) :
  wellplate_step location entry
  = from_option Some location (wellplate_slot entry).
Proof.
  destruct entry as [nm loc]. unfold wellplate_step, wellplate_slot.
  cbn [fst snd]. destruct (contains "well" nm); [|done].
  by destruct loc as [s|[|l0 [|l1 l]]|z].
Qed.

(** The scan of the labware keeps the slot of the last entry that gives
    one. *)
Lemma wellplate_scan (labware : dict labware_loc) (location : option string) :
  fold_left wellplate_step labware location
  = from_option Some location (last (omap wellplate_slot labware)).
Proof.
  revert location. induction labware as [|entry lw IH] using rev_ind;
    intros location; [done|].
  rewrite fold_left_app, omap_app. cbn [fold_left].
  rewrite IH, wellplate_step_slot.
  change (omap wellplate_slot [entry])
    with (match wellplate_slot entry with Some s => [s] | None => [] end).
  destruct (wellplate_slot entry) as [s|]; cbn [from_option].
  - by rewrite last_snoc.
  - by rewrite app_nil_r.
Qed.

(** C7, as the code has it: a location without colon gets the slot of the
    last labware whose name contains "well" (the first slot when it has
    several, [None] when there is no such labware), whatever the location
    says; a location [plate:well] gets the slot the alias dictionary has
    for [plate], and a [KeyError] when it has none. *)
Theorem wellplate_location_resolved (aliases : gmap string string)
  (labware : dict labware_loc) :
  (∀ loc, contains ":" loc = false →
     _parse_wellplate_location aliases labware loc
     = Ok (last (omap wellplate_slot labware))) ∧
  (∀ plate well, contains ":" plate = false → contains ":" well = false →
     _parse_wellplate_location aliases labware (plate +:+ ":" +:+ well)
     = match aliases !! plate with
       | Some slot => Ok (Some slot)
       | None => Raise (KeyError plate)
       end).
Proof.
  split.
  - intros loc Hloc. unfold _parse_wellplate_location. rewrite Hloc.
    rewrite wellplate_scan. by destruct (last _).
  - intros plate well Hp Hw. unfold _parse_wellplate_location, split.
    rewrite contains_colon_app, split_one_colon by done. reflexivity.
Qed.

Lemma wellplate_location_resolved_witness :
  _parse_wellplate_location (deck_alias demo_deck) (deck_labware demo_deck) "A1"
  = Ok (Some "2") ∧
  _parse_wellplate_location (deck_alias demo_deck) (deck_labware demo_deck)
    ("dst" +:+ ":" +:+ "B1")
  = Ok (Some "3").
Proof.
  split.
  - apply (proj1 (wellplate_location_resolved
                    (deck_alias demo_deck) (deck_labware demo_deck))).
    reflexivity.
  - apply (proj2 (wellplate_location_resolved
                    (deck_alias demo_deck) (deck_labware demo_deck)));
      reflexivity.
Defined.

(** C7 as stated fails: the location ["A1"] has no colon, and the slot
    found for it is that of the wellplate, not ["A1"]. *)
Lemma bare_location_is_not_the_slot :
  contains ":" "A1" = false ∧
  _parse_wellplate_location (deck_alias demo_deck) (deck_labware demo_deck) "A1"
  = Ok (Some "2") ∧
  _parse_wellplate_location (deck_alias demo_deck) (deck_labware demo_deck) "A1"
  ≠ Ok (Some "A1").
Proof.
  split; [reflexivity|]. split; [reflexivity|].
  intros Heq. vm_compute in Heq. discriminate Heq.
Qed.

(** ** Error messages *)

Lemma string_prefix_app (sub post : string) : String.prefix sub (sub +:+ post) = true.
Proof.
  induction sub as [|c sub IH]; [by destruct post|].
  rewrite append_cons. cbn [String.prefix].
  by destruct (ascii_dec c c).
Qed.

Lemma contains_prefix (sub s : string) :
  String.prefix sub s = true → contains sub s = true.
Proof. intros Hp. destruct s; cbn [contains]; by rewrite Hp. Qed.

(** A message contains what was put into it. *)
Lemma contains_app (sub pre post : string) :
  contains sub (pre +:+ sub +:+ post) = true.
Proof.
  induction pre as [|c pre IH].
  - change ("" +:+ sub +:+ post) with (sub +:+ post).
    apply contains_prefix, string_prefix_app.
  - rewrite append_cons. cbn [contains]. rewrite IH. apply orb_true_r.
Qed.

Lemma collapse_source_raises (cb : Command) (n : nat) (e : exn) :
  (collapse_source cb n).2 = Raise e → e = PyException msg_multiple.
Proof.
  unfold collapse_source. destruct (source cb) as [s|l]; [discriminate|].
  destruct (negb (n =? 0)%nat && negb (length l =? n)%nat); [|discriminate].
  destruct l as [|s1 [|s2 l]]; simpl; congruence.
Qed.

Lemma collapse_destination_raises (cb : Command) (n : nat) (e : exn) :
  (collapse_destination cb n).2 = Raise e → e = PyException msg_different.
Proof.
  unfold collapse_destination. destruct (destination cb) as [d|l]; [discriminate|].
  destruct (negb (n =? 0)%nat && negb (length l =? n)%nat); [|discriminate].
  destruct l as [|d1 [|d2 l]]; simpl; congruence.
Qed.

Lemma yields_raises (cb : Command) (e : exn) :
  yields cb = Raise e →
  e = PyException msg_multiple ∨ e = PyException msg_different.
Proof.
  unfold yields, _process_instruction.
  assert (∀ e,
    (let '(cb1, n1) := collapse_volume cb in
     match collapse_source cb1 n1 with
     | (cb2, Raise e2) => (cb2, Raise e2)
     | (cb2, Ok n2) =>
         match collapse_destination cb2 n2 with
         | (cb3, Raise e3) => (cb3, Raise e3)
         | (cb3, Ok n3) =>
             (cb3, Ok (zip3 (iterable (volume cb3) n3)
                            (iterable (source cb3) n3)
                            (iterable (destination cb3) n3)))
         end
     end).2 = Raise e →
    e = PyException msg_multiple ∨ e = PyException msg_different) as Hbody.
  { clear e. intros e. destruct (collapse_volume cb) as [cb1 n1].
    destruct (collapse_source cb1 n1) as [cb2 [n2|e2]] eqn:Hsrc.
    - destruct (collapse_destination cb2 n2) as [cb3 [n3|e3]] eqn:Hdst;
        [discriminate|].
      intros [= <-]. right.
      apply (collapse_destination_raises cb2 n2). by rewrite Hdst.
    - intros [= <-]. left.
      apply (collapse_source_raises cb1 n1). by rewrite Hsrc. }
  destruct (volume cb) as [[z|col]|vs], (source cb) as [s|ss],
    (destination cb) as [d|ds]; try apply Hbody.
  discriminate.
Qed.

Lemma process_instruction_drop_tip (cb : Command) :
  drop_tip (_process_instruction cb).1 = drop_tip cb.
Proof.
  destruct cb as [nm src dst vol dt].
  unfold _process_instruction, collapse_volume, collapse_source,
    collapse_destination.
  cbn [volume source destination].
  destruct vol as [[z|col]|[|v1 [|v2 vs]]], src as [s|[|s1 [|s2 ss]]],
    dst as [d|[|d1 [|d2 ds]]];
    cbn -[Nat.eqb zip3];
    repeat match goal with
           | |- context [(?a =? ?b)%nat] =>
               destruct (a =? b)%nat; cbn -[Nat.eqb zip3]
           end; reflexivity.
Qed.

Section Errors.

Context {R : Type} `{ResourceManager R}.

Lemma transfer_loop_app (bn : string) (dt : bool) (ts1 ts2 : list transfer)
  (st : state R) :
  transfer_loop bn dt st (ts1 ++ ts2)
  = (st1 ← transfer_loop bn dt st ts1; transfer_loop bn dt st1 ts2).
Proof.
  revert st. induction ts1 as [|t ts1 IH]; intros st; [reflexivity|].
  cbn [app transfer_loop mbind result_bind].
  destruct (transfer_step bn dt st t) as [st1|e]; [apply IH|reflexivity].
Qed.

(** The loop over a recipe in two parts: the second part starts at the
    index the first part ends with. *)
Lemma block_loop_app (i : nat) (before rest : list Command) (st : state R) :
  block_loop i (before ++ rest) st
  = ('(before', st1) ← block_loop i before st;
     '(rest', st2) ← block_loop (i + length before) rest st1;
     mret (before' ++ rest', st2)).
Proof.
  revert i st. induction before as [|cb before IH]; intros i st.
  - cbn [app block_loop length mbind result_bind mret result_ret].
    rewrite Nat.add_0_r.
    by destruct (block_loop i rest st) as [[rest' st2]|e].
  - cbn [app block_loop length].
    destruct (_process_instruction cb) as [cb' [ts|e]];
      cbn [mbind result_bind]; [|reflexivity].
    destruct (transfer_loop _ _ _ ts) as [st1|e];
      cbn [mbind result_bind]; [|reflexivity].
    rewrite IH, Nat.add_succ_r.
    destruct (block_loop (S i) before st1) as [[before' st2]|e];
      cbn [mbind result_bind mret result_ret]; [|reflexivity].
    by destruct (block_loop _ rest st2) as [[rest' st3]|e].
Qed.

(** The run of [_create_commands] on a recipe whose first blocks compile:
    what is left is the loop from the next block on, at that block's
    position. *)
Lemma create_commands_from (rm : R) (before rest : list Command)
  (st : state R) (e : exn) :
  reaches rm before st →
  block_loop (length before) rest st = Raise e →
  _create_commands rm (before ++ rest) = Raise e.
Proof.
  intros [before' Hbefore] Hrest. unfold initial_state in Hbefore.
  unfold _create_commands. cbv zeta.
  rewrite block_loop_app, Hbefore.
  cbn [mbind result_bind Nat.add]. by rewrite Hrest.
Qed.

(** C8, as the code has it, for a block at any position of the recipe,
    the blocks before it compiling.  An exception of
    [_process_instruction] ends [_create_commands] as it is, with one of
    two fixed messages, the same for every block and every field.  A
    triple of the block whose volume no pipette takes, the triples before
    it compiling, ends [_create_commands] with a message made of the
    block's name and the volume; the name of an unnamed block is
    ["command "] and its position in the recipe, counted from 0. *)
Theorem error_messages :
  (∀ (rm : R) before cb rest st e,
     reaches rm before st →
     yields cb = Raise e →
     _create_commands rm (before ++ cb :: rest) = Raise e ∧
     (e = PyException msg_multiple ∨ e = PyException msg_different)) ∧
  (∀ (rm : R) before cb rest st ts1 v src dst ts2 st1,
     reaches rm before st →
     yields cb = Ok (ts1 ++ (v, src, dst) :: ts2) →
     transfer_loop (block_name (length before) cb) (drop_tip cb)
       (emit st (BlockHeader (block_name (length before) cb))) ts1 = Ok st1 →
     determine_pipette (resource_manager st1) v = Ok None →
     _create_commands rm (before ++ cb :: rest)
     = Raise (PyException (msg_no_pipette (block_name (length before) cb) v)) ∧
     contains (block_name (length before) cb)
       (msg_no_pipette (block_name (length before) cb) v) = true ∧
     contains (str v) (msg_no_pipette (block_name (length before) cb) v) = true) ∧
  (∀ (before : list Command) cb v,
     msg_no_pipette (block_name (length before) cb) v
     = match name cb with
       | Some n =>
           "No pipette available for " +:+ n +:+ " with volume: " +:+ str v
       | None =>
           "No pipette available for command "
           +:+ str_of_int (Z.of_nat (length before))
           +:+ " with volume: " +:+ str v
       end).
Proof.
  split; [|split].
  - intros rm before cb rest st e Hreach Hy.
    split; [|by apply (yields_raises cb)].
    apply (create_commands_from rm before (cb :: rest) st e Hreach).
    unfold yields in Hy. cbn [block_loop].
    destruct (_process_instruction cb) as [cb' r]. simpl in Hy. by subst r.
  - intros rm before cb rest st ts1 v src dst ts2 st1 Hreach Hy Hloop Hdet.
    split; [|split].
    + apply (create_commands_from rm before (cb :: rest) st _ Hreach).
      unfold yields in Hy. cbn [block_loop].
      pose proof (process_instruction_drop_tip cb) as Hdt.
      destruct (_process_instruction cb) as [cb' r]. simpl in Hy, Hdt. subst r.
      cbn [mbind result_bind]. rewrite Hdt, transfer_loop_app, Hloop.
      cbn [mbind result_bind transfer_loop]. unfold transfer_step.
      by rewrite Hdet.
    + unfold msg_no_pipette. apply contains_app.
    + unfold msg_no_pipette.
      rewrite <- (append_empty_r (str v)) at 2.
      rewrite <- !append_assoc, append_assoc.
      apply (contains_app (str v) _ "").
  - intros before cb v. unfold msg_no_pipette, block_name.
    destruct (name cb) as [n|]; [reflexivity|].
    rewrite append_assoc.
    change "No pipette available for command "
      with ("No pipette available for " +:+ "command ").
    by rewrite append_assoc.
Qed.

End Errors.

Lemma error_messages_witness :
  ∃ st st1 : state Deck,
    reaches demo_deck [by_number] st ∧
    yields small_then_too_much
    = Ok ([(PInt 5, "src:A1", "dst:B1")] ++ [(PInt 500, "src:A1", "dst:B1")]) ∧
    transfer_loop "command 1" true (emit st (BlockHeader "command 1"))
      [(PInt 5, "src:A1", "dst:B1")] = Ok st1 ∧
    determine_pipette (resource_manager st1) (PInt 500) = Ok None ∧
    _create_commands demo_deck [by_number; small_then_too_much; mix]
    = Raise (PyException "No pipette available for command 1 with volume: 500").
Proof.
  assert (∀ A B C D E : Prop,
            A → B → C → D → (A → B → C → D → E) → A ∧ B ∧ C ∧ D ∧ E)
    as Hall by tauto.
  eexists. eexists.
  apply Hall;
    [ eexists; vm_compute; reflexivity
    | reflexivity
    | vm_compute; reflexivity
    | reflexivity
    | intros Hreach Hy Hloop Hdet ].
  exact (proj1 (proj1 (proj2 error_messages) demo_deck [by_number]
                 small_then_too_much [mix] _ _ _ _ _ _ _
                 Hreach Hy Hloop Hdet)).
Defined.

(** C8 as stated fails: the block named ["mix"] has a source of two and a
    destination of three elements; the exception that ends the
    compilation has a message with neither the name nor an element of the
    fields. *)
Lemma ambiguous_error_names_no_block :
  _create_commands demo_deck [mix] = Raise (PyException msg_different) ∧
  contains "mix" msg_different = false ∧
  contains "src:A1" msg_different = false ∧
  contains "dst:B1" msg_different = false.
Proof. repeat split; reflexivity. Qed.

(** ** What compiling changes in the recipe *)

Lemma mapM_lookup {A B : Type} (f : A → result B) (l : list A) (l' : list B)
  (i : nat) (x : A) :
  mapM f l = Ok l' → l !! i = Some x → ∃ y, l' !! i = Some y ∧ f x = Ok y.
Proof.
  revert l' i. induction l as [|a l IH]; intros l' i Hm Hi; [done|].
  cbn [mapM] in Hm. destruct (f a) as [b|] eqn:Hfa; [|discriminate].
  destruct (mapM f l) as [bs|] eqn:Hfl; [|discriminate].
  injection Hm as <-. destruct i as [|i]; simpl in *.
  - injection Hi as <-. eauto.
  - eauto.
Qed.

(** The loop body leaves a plain block as it is. *)
Lemma postprocess_command_plain (resources : Resources) (key : option string)
  (c : Command) :
  plain c = true → postprocess_command resources key c = Ok c.
Proof.
  unfold plain. intros Hp.
  apply andb_prop in Hp as [Hp _]. apply andb_prop in Hp as [Hp Hpeek].
  apply andb_prop in Hp as [Hsrc Hdst].
  apply negb_true_iff in Hsrc, Hdst.
  destruct (peek (source c)) as [s|] eqn:Hps; [|discriminate].
  destruct (peek (destination c)) as [d|] eqn:Hpd; [|discriminate].
  apply negb_true_iff in Hpeek.
  unfold postprocess_command. rewrite Hsrc. cbn [mbind result_bind mret result_ret].
  rewrite Hps. cbn [mbind result_bind]. rewrite Hpeek.
  cbn [mbind result_bind mret result_ret]. rewrite Hdst.
  cbn [mbind result_bind mret result_ret]. rewrite Hpd.
  cbn [mbind result_bind]. reflexivity.
Qed.

(** The statement after the loop touches the last block only, and only
    when its volume is a string. *)
Lemma postprocess_volume_lookup (resources : Resources) (key : option string)
  (cs cs' : list Command) (i : nat) (c : Command) :
  postprocess_volume resources key cs = Ok cs' →
  cs !! i = Some c →
  (∀ col, volume c ≠ Scalar (PStr col)) →
  cs' !! i = Some c.
Proof.
  intros Hrun Hi Hvol. unfold postprocess_volume in Hrun.
  destruct cs as [|c0 cs0] using rev_ind; [done|]. clear IHcs0.
  rewrite fmap_app in Hrun. cbn [fmap list_fmap] in Hrun.
  rewrite List.last_last in Hrun.
  destruct (volume c0) as [[z|col]|l] eqn:Hv;
    [by injection Hrun as <- | | by injection Hrun as <-].
  apply bind_Ok in Hrun as (cells & _ & Hrun).
  apply bind_Ok in Hrun as (vols & _ & Hrun).
  injection Hrun as <-. rewrite List.removelast_last.
  destruct (decide (i < length cs0)) as [Hlt|Hge].
  - rewrite lookup_app_l in Hi |- * by done. done.
  - rewrite lookup_app_r in Hi by lia.
    destruct (i - length cs0) as [|k]; simpl in Hi; [|done].
    injection Hi as <-. by destruct (Hvol col).
Qed.

Lemma plain_volume (c : Command) :
  plain c = true → ∀ col, volume c ≠ Scalar (PStr col).
Proof.
  unfold plain. intros [_ Hv]%andb_prop col Heq. rewrite Heq in Hv. done.
Qed.

(** Without one-element lists [_process_instruction] assigns nothing. *)
Lemma process_instruction_frame (c : Command) :
  no_singleton c = true → (_process_instruction c).1 = c.
Proof.
  destruct c as [nm src dst vol dt]. unfold no_singleton. cbn [volume source destination].
  intros Hns. apply andb_prop in Hns as [Hns Hd]. apply andb_prop in Hns as [Hv Hs].
  unfold _process_instruction, collapse_volume, collapse_source,
    collapse_destination.
  cbn [volume source destination].
  destruct vol as [[z|col]|[|v1 [|v2 vs]]]; try discriminate Hv;
  destruct src as [s|[|s1 [|s2 ss]]]; try discriminate Hs;
  destruct dst as [d|[|d1 [|d2 ds]]]; try discriminate Hd;
  cbn -[Nat.eqb zip3];
  repeat match goal with
         | |- context [(?a =? ?b)%nat] => destruct (a =? b)%nat; cbn -[Nat.eqb zip3]
         end; reflexivity.
Qed.

Section Frame.

Context {R : Type} `{ResourceManager R}.

Lemma block_loop_frame (blocks : list Command) :
  ∀ (i0 : nat) (st st' : state R) (blocks' : list Command) (i : nat) (c : Command),
    block_loop i0 blocks st = Ok (blocks', st') →
    blocks !! i = Some c → no_singleton c = true → blocks' !! i = Some c.
Proof.
  induction blocks as [|cb blocks IH];
    intros i0 st st' blocks' i c Hrun Hi Hns; [done|].
  cbn [block_loop] in Hrun.
  pose proof (process_instruction_frame cb) as Hframe.
  destruct (_process_instruction cb) as [cb' yielded].
  apply bind_Ok in Hrun as (ts & -> & Hrun).
  apply bind_Ok in Hrun as (st1 & H1 & Hrun).
  apply bind_Ok in Hrun as ([rest st2] & H2 & Hrun).
  injection Hrun as <- <-. destruct i as [|i]; simpl in *.
  - injection Hi as ->. by rewrite Hframe.
  - by eapply IH.
Qed.

(** C9, as the code has it: the preprocessing leaves a block unchanged
    when the block is plain (no bracketed alias list, a source ending in
    a well name, a volume that is no column name), and the command
    generation leaves a block unchanged when none of its fields is a
    one-element list. *)
Theorem untouched_blocks :
  (∀ resources commands commands' i c,
     _postprocess_commands resources commands = Ok commands' →
     commands !! i = Some c → plain c = true →
     commands' !! i = Some c) ∧
  (∀ (rm : R) commands out i c,
     _create_commands rm commands = Ok out →
     commands !! i = Some c → no_singleton c = true →
     blocks_after out !! i = Some c).
Proof.
  split.
  - intros resources commands commands' i c Hrun Hi Hp.
    unfold _postprocess_commands in Hrun.
    apply bind_Ok in Hrun as (cs1 & Hmap & Hrun).
    destruct (mapM_lookup _ _ _ i c Hmap Hi) as (c1 & Hi1 & Hc1).
    rewrite postprocess_command_plain in Hc1 by done. injection Hc1 as <-.
    eapply postprocess_volume_lookup; [exact Hrun | exact Hi1 |].
    by apply plain_volume.
  - intros rm commands out i c Hrun Hi Hns. unfold _create_commands in Hrun.
    apply bind_Ok in Hrun as ([blocks st] & Hloop & Hrun).
    injection Hrun as <-. cbn [blocks_after].
    by eapply block_loop_frame.
Qed.

End Frame.

Lemma untouched_blocks_witness :
  ∃ commands' out,
    _postprocess_commands [] demo_recipe = Ok commands' ∧
    commands' !! 0 = demo_recipe !! 0 ∧
    _create_commands demo_deck demo_recipe = Ok out ∧
    blocks_after out !! 1 = demo_recipe !! 1.
Proof.
  eexists _, _. split; [vm_compute; reflexivity|]. split.
  { eapply (proj1 (untouched_blocks (R := Deck)) [] demo_recipe _ 0);
      reflexivity. }
  split; [vm_compute; reflexivity|].
  eapply (proj2 untouched_blocks demo_deck demo_recipe _ 1);
    [vm_compute; reflexivity | reflexivity | reflexivity].
Defined.

(** C9 as stated fails: the preprocessing replaces the bracketed source of
    the block by a list, and the command generation replaces its
    one-element volume list by the element. *)
Lemma recipe_rewritten_in_place :
  ∃ expanded out,
    _postprocess_commands [] [bracketed] = Ok [expanded] ∧
    source expanded = List ["src:A1"; "src:A2"] ∧
    source expanded ≠ source bracketed ∧
    _create_commands demo_deck [expanded] = Ok out ∧
    volume <$> blocks_after out = [Scalar (PInt 50)] ∧
    volume <$> blocks_after out ≠ [volume bracketed].
Proof.
  eexists _, _. split; [vm_compute; reflexivity|].
  split; [reflexivity|]. split; [discriminate|].
  split; [vm_compute; reflexivity|].
  split; [reflexivity | discriminate].
Qed.

(** * Further properties *)

(** ** Malformed locations *)

Lemma split_go_length (s acc : string) :
  length (split_go ":" 0 s acc) = S (colons s).
Proof.
  revert acc. induction s as [|c s IH]; intros acc; [done|].
  cbn [split_go colons]. rewrite prefix_colon.
  destruct (Ascii.eqb ":" c); cbn [String.length Nat.sub length];
    by rewrite IH.
Qed.

Lemma contains_colons (s : string) :
  contains ":" s = negb (colons s =? 0)%nat.
Proof.
  induction s as [|c s IH]; [done|].
  rewrite contains_colon_cons, IH. cbn [colons].
  by destruct (Ascii.eqb ":" c).
Qed.

(** X1: a location with two or more colons is rejected, whatever the
    dictionaries hold, and the message shows the location. *)
Theorem malformed_location_rejected (aliases : gmap string string)
  (labware : dict labware_loc) (loc : string) :
  (2 ≤ colons loc)%nat →
  _parse_wellplate_location aliases labware loc
  = Raise (PyException (msg_not_formatted loc)) ∧
  contains loc (msg_not_formatted loc) = true.
Proof.
  intros Hc. split; [|apply contains_app].
  unfold _parse_wellplate_location. rewrite contains_colons.
  destruct (Nat.eqb_spec (colons loc) 0) as [E|_]; [lia|]. cbn [negb].
  pose proof (split_go_length loc "") as Hlen. unfold split.
  destruct (split_go ":" 0 loc "") as [|a [|b [|c l]]]; simpl in Hlen;
    [lia | lia | lia | reflexivity].
Qed.

Lemma malformed_location_rejected_witness :
  (2 ≤ colons "src:A1:B2")%nat ∧
  _parse_wellplate_location (deck_alias demo_deck) (deck_labware demo_deck)
    "src:A1:B2"
  = Raise (PyException "Command: src:A1:B2 is not formatted correctly...").
Proof.
  split; [vm_compute; lia|].
  apply (malformed_location_rejected (deck_alias demo_deck)
           (deck_labware demo_deck) "src:A1:B2").
  vm_compute. lia.
Defined.

(** ** More on the broadcast resolver *)

Lemma process_instruction_cases (cb : Command) :
  _process_instruction cb
  = match volume cb, source cb, destination cb with
    | Scalar (PInt v), Scalar s, Scalar d => (cb, Ok [(PInt v, s, d)])
    | _, _, _ => broadcast cb
    end.
Proof. reflexivity. Qed.

Lemma zip3_length {A B C : Type} (a : list A) (b : list B) (c : list C) :
  length (zip3 a b c) = length a `min` (length b `min` length c).
Proof.
  revert b c. induction a as [|x a IH]; intros [|y b] [|z c]; simpl; try done.
  by rewrite IH.
Qed.

Lemma iterable_length {A : Type} (f : field A) (n : nat) :
  fits n f = true → length (iterable f n) = n.
Proof.
  destruct f as [a|l]; simpl.
  - intros _. apply repeat_length.
  - by intros ?%Nat.eqb_eq.
Qed.

(** X2: when no field is a one-element list, at least one field is a list
    and all the lists have the same length [n] of two or more, the block
    yields [n] triples: the lists are walked together, a scalar is
    repeated, and the block is left as it was. *)
Theorem broadcast_common_length (cb : Command) (n : nat) :
  (2 ≤ n)%nat →
  fits n (volume cb) = true → fits n (source cb) = true →
  fits n (destination cb) = true →
  is_list (volume cb) || is_list (source cb) || is_list (destination cb) = true →
  _process_instruction cb
  = (cb, Ok (zip3 (iterable (volume cb) n) (iterable (source cb) n)
                  (iterable (destination cb) n))) ∧
  length (zip3 (iterable (volume cb) n) (iterable (source cb) n)
               (iterable (destination cb) n)) = n.
Proof.
  intros Hn Hv Hs Hd Hl. split.
  2:{ rewrite zip3_length, !iterable_length by done. lia. }
  destruct n as [|[|n]]; [lia | lia |].
  destruct cb as [nm src dst vol dt]. cbn [volume source destination] in *.
  rewrite process_instruction_cases. cbn [volume source destination].
  unfold broadcast, collapse_volume, collapse_source, collapse_destination.
  destruct vol as [v|vs], src as [s|ss], dst as [d|ds];
    cbn [fits is_list orb] in *; try discriminate Hl;
    repeat match goal with
           | H : (length ?l =? _)%nat = true |- _ =>
               apply Nat.eqb_eq in H;
               destruct l as [|? [|? ?]]; cbn [length] in H; [lia | lia |]
           end;
    try (destruct v);
    repeat (progress (cbn -[zip3 repeat Nat.eqb];
                      rewrite ?Hv, ?Hs, ?Hd, ?Nat.eqb_refl;
                      change (S (S n) =? 0)%nat with false));
    reflexivity.
Qed.

Lemma broadcast_common_length_witness :
  (2 ≤ 3)%nat ∧
  _process_instruction three_volumes
  = (three_volumes,
     Ok [(PInt 50, "A:A1", "B:C1"); (PInt 100, "A:A2", "B:C1");
         (PInt 75, "A:A3", "B:C1")]).
Proof.
  split; [lia|].
  apply (proj1 (broadcast_common_length three_volumes 3 ltac:(lia)
                  eq_refl eq_refl eq_refl eq_refl)).
Defined.

Lemma zip3_elem {A B C : Type} (a : list A) (b : list B) (c : list C) x y z :
  (x, y, z) ∈ zip3 a b c → x ∈ a ∧ y ∈ b ∧ z ∈ c.
Proof.
  revert b c. induction a as [|x0 a IH]; intros [|y0 b] [|z0 c]; simpl;
    try (by intros ?%elem_of_nil).
  intros [[= -> -> ->]|Hin]%elem_of_cons.
  - repeat split; apply list_elem_of_here.
  - destruct (IH _ _ Hin) as (? & ? & ?).
    repeat split; by apply list_elem_of_further.
Qed.

Lemma iterable_elem {A : Type} (f : field A) (n : nat) (x : A) :
  x ∈ iterable f n → x ∈ elements f.
Proof.
  destruct f as [a|l]; simpl; [|done].
  intros Hin%list_elem_of_In%repeat_spec. subst x. apply list_elem_of_here.
Qed.

Lemma collapse_volume_elements (cb : Command) :
  elements (volume (collapse_volume cb).1) = elements (volume cb) ∧
  source (collapse_volume cb).1 = source cb ∧
  destination (collapse_volume cb).1 = destination cb.
Proof.
  destruct cb as [nm src dst vol dt]. unfold collapse_volume.
  cbn [volume]. by destruct vol as [v|[|v1 [|v2 vs]]].
Qed.

Lemma collapse_source_elements (cb : Command) (n : nat) :
  elements (source (collapse_source cb n).1) = elements (source cb) ∧
  volume (collapse_source cb n).1 = volume cb ∧
  destination (collapse_source cb n).1 = destination cb.
Proof.
  destruct cb as [nm src dst vol dt]. unfold collapse_source.
  cbn [source]. destruct src as [s|l]; [done|].
  destruct (negb (n =? 0)%nat && negb (length l =? n)%nat); [|done].
  by destruct l as [|s1 [|s2 l]].
Qed.

Lemma collapse_destination_elements (cb : Command) (n : nat) :
  elements (destination (collapse_destination cb n).1)
  = elements (destination cb) ∧
  volume (collapse_destination cb n).1 = volume cb ∧
  source (collapse_destination cb n).1 = source cb.
Proof.
  destruct cb as [nm src dst vol dt]. unfold collapse_destination.
  cbn [destination]. destruct dst as [d|l]; [done|].
  destruct (negb (n =? 0)%nat && negb (length l =? n)%nat); [|done].
  by destruct l as [|d1 [|d2 l]].
Qed.

Lemma broadcast_from_fields (cb : Command) (ts : list transfer) v s d :
  (broadcast cb).2 = Ok ts → (v, s, d) ∈ ts →
  v ∈ elements (volume cb) ∧ s ∈ elements (source cb) ∧
  d ∈ elements (destination cb).
Proof.
  unfold broadcast.
  pose proof (collapse_volume_elements cb) as (Hv1 & Hs1 & Hd1).
  destruct (collapse_volume cb) as [cb1 n1]. cbn [fst] in *.
  pose proof (collapse_source_elements cb1 n1) as (Hs2 & Hv2 & Hd2).
  destruct (collapse_source cb1 n1) as [cb2 [n2|e2]]; [|discriminate].
  cbn [fst] in *.
  pose proof (collapse_destination_elements cb2 n2) as (Hd3 & Hv3 & Hs3).
  destruct (collapse_destination cb2 n2) as [cb3 [n3|e3]]; [|discriminate].
  cbn [fst snd] in *. intros [= <-] (Hv & Hs & Hd)%zip3_elem.
  apply iterable_elem in Hv, Hs, Hd.
  rewrite Hv3, Hv2, Hv1 in Hv. rewrite Hs3, Hs2, Hs1 in Hs.
  rewrite Hd3, Hd2, Hd1 in Hd. done.
Qed.

(** X3: every triple a block yields is made of a volume, a source and a
    destination the block's fields hold; nothing else is ever yielded,
    also when lists are cut short. *)
Theorem yields_from_fields (cb : Command) (ts : list transfer) v s d :
  yields cb = Ok ts → (v, s, d) ∈ ts →
  v ∈ elements (volume cb) ∧ s ∈ elements (source cb) ∧
  d ∈ elements (destination cb).
Proof.
  unfold yields. rewrite process_instruction_cases.
  pose proof (broadcast_from_fields cb ts v s d) as Hb.
  destruct (volume cb) as [[z|col]|vs], (source cb) as [s0|ss],
    (destination cb) as [d0|ds]; try exact Hb.
  cbn [snd]. intros [= <-] [= -> -> ->]%list_elem_of_singleton.
  repeat split; apply list_elem_of_here.
Qed.

Lemma yields_from_fields_witness :
  yields three_volumes
  = Ok [(PInt 50, "A:A1", "B:C1"); (PInt 100, "A:A2", "B:C1");
        (PInt 75, "A:A3", "B:C1")] ∧
  PInt 100 ∈ elements (volume three_volumes) ∧
  "A:A2" ∈ elements (source three_volumes) ∧
  "B:C1" ∈ elements (destination three_volumes).
Proof.
  split; [reflexivity|].
  apply (yields_from_fields three_volumes _ (PInt 100) "A:A2" "B:C1" eq_refl).
  apply list_elem_of_further, list_elem_of_here.
Defined.

(** ** The commands of a transfer *)

Lemma count_app (kind : snippet → bool) (a b : list snippet) :
  count kind (a ++ b) = count kind a + count kind b.
Proof. unfold count. by rewrite List.filter_app, length_app. Qed.

Lemma paired_app (a b : list snippet) : paired a → paired b → paired (a ++ b).
Proof.
  intros Ha Hb i m v slot well Hi.
  destruct (decide (i < length a)) as [Hlt|Hge].
  - rewrite lookup_app_l in Hi by done.
    destruct (Ha _ _ _ _ _ Hi) as (slot' & well' & Hnext).
    exists slot', well'. rewrite lookup_app_l; [done|].
    by eapply lookup_lt_Some.
  - rewrite lookup_app_r in Hi by lia.
    destruct (Hb _ _ _ _ _ Hi) as (slot' & well' & Hnext).
    exists slot', well'. rewrite lookup_app_r by lia.
    by replace (S i - length a) with (S (i - length a)) by lia.
Qed.

Lemma paired_transfer_commands pre m t slot_s slot_d dt :
  (pre = [] ∨ ∃ r w, pre = [PickTip m r w]) →
  paired (transfer_commands pre m t slot_s slot_d dt).
Proof.
  intros [->|(r & w & ->)] i m' v slot well Hi; unfold transfer_commands in *;
    destruct dt; repeat (destruct i as [|i]; simpl in Hi; try discriminate Hi);
    injection Hi as <- <- <- <-; by eexists _, _.
Qed.

Section Transfers.

Context {R : Type} `{ResourceManager R}.

Lemma check_tip_shape (m : string) (st st' : state R) :
  check_tip m st = Ok st' →
  ∃ pre, commands st' = commands st ++ pre ∧
         (pre = [] ∨ ∃ r w, pre = [PickTip m r w]).
Proof.
  unfold check_tip. intros (loaded & Hget & Hrun)%bind_Ok.
  destruct loaded; simpl in Hrun.
  { injection Hrun as <-. exists []. rewrite app_nil_r. auto. }
  destruct (mount_to_pipette (resource_manager st) !! m) as [pn|];
    [|discriminate].
  apply bind_Ok in Hrun as ([[rack well] rm] & Htip & Hrun).
  injection Hrun as <-. simpl. exists [PickTip m rack well].
  split; [done|]. right. by eexists _, _.
Qed.

Lemma endpoint_shape (mk : option string → string → snippet) (loc : string)
  (st st' : state R) :
  endpoint mk loc st = Ok st' →
  ∃ slot, commands st' = commands st ++ [mk slot (last_piece (split ":" loc))].
Proof.
  unfold endpoint. intros (slot & Hslot & Hrun)%bind_Ok.
  apply bind_Ok in Hrun as (rm & Hrm & Hrun).
  injection Hrun as <-. simpl. eauto.
Qed.

(** One transfer appends its commands in a fixed order. *)
Lemma transfer_step_shape (bn : string) (dt : bool) (st st' : state R)
  (t : transfer) :
  transfer_step bn dt st t = Ok st' →
  ∃ pre m slot_s slot_d,
    determine_pipette (resource_manager st) t.1.1 = Ok (Some m) ∧
    (pre = [] ∨ ∃ r w, pre = [PickTip m r w]) ∧
    commands st' = commands st ++ transfer_commands pre m t slot_s slot_d dt.
Proof.
  destruct t as [[v src] dst]. unfold transfer_step.
  intros (om & Hdet & Hrun)%bind_Ok.
  destruct om as [m|]; [|discriminate].
  apply bind_Ok in Hrun as (st1 & (pre & H1 & Hpre)%check_tip_shape & Hrun).
  apply bind_Ok in Hrun as (st2 & (slot_s & H2)%endpoint_shape & Hrun).
  apply bind_Ok in Hrun as (st3 & (slot_d & H3)%endpoint_shape & Hrun).
  injection Hrun as <-. exists pre, m, slot_s, slot_d.
  split; [done|]. split; [done|].
  unfold transfer_commands. cbn [fst snd].
  destruct dt; simpl; rewrite H3, H2, H1, <- !app_assoc; reflexivity.
Qed.

Lemma transfer_loop_paired (bn : string) (dt : bool) (ts : list transfer) :
  ∀ st st' : state R,
    transfer_loop bn dt st ts = Ok st' →
    paired (commands st) →
    paired (commands st') ∧
    count is_aspirate (commands st')
    = count is_aspirate (commands st) + length ts ∧
    count is_dispense (commands st')
    = count is_dispense (commands st) + length ts ∧
    count is_header (commands st') = count is_header (commands st).
Proof.
  induction ts as [|t ts IH]; intros st st' Hrun Hp; simpl in Hrun.
  - injection Hrun as <-. simpl. by rewrite !Nat.add_0_r.
  - apply bind_Ok in Hrun as (st1 & Hstep & Hrun).
    apply transfer_step_shape in Hstep
      as (pre & m & slot_s & slot_d & _ & Hpre & Hcs).
    destruct (IH _ _ Hrun) as (Hp' & Ha & Hd & Hh).
    { rewrite Hcs. apply paired_app; [done|].
      by apply paired_transfer_commands. }
    split; [done|]. rewrite Ha, Hd, Hh, Hcs, !count_app. simpl.
    unfold transfer_commands.
    destruct Hpre as [->|(r & w & ->)], dt; cbn; lia.
Qed.

Lemma block_loop_paired (blocks : list Command) :
  ∀ (i : nat) (st st' : state R) (blocks' : list Command),
    block_loop i blocks st = Ok (blocks', st') →
    paired (commands st) →
    paired (commands st') ∧
    count is_aspirate (commands st')
    = count is_aspirate (commands st) + transfers_of blocks ∧
    count is_dispense (commands st')
    = count is_dispense (commands st) + transfers_of blocks ∧
    count is_header (commands st')
    = count is_header (commands st) + length blocks.
Proof.
  induction blocks as [|cb blocks IH]; intros i st st' blocks' Hrun Hp.
  - injection Hrun as _ <-. unfold transfers_of. simpl.
    by rewrite !Nat.add_0_r.
  - cbn [block_loop] in Hrun.
    assert (transfers_of (cb :: blocks)
            = match yields cb with Ok ts => length ts | Raise _ => 0 end
              + transfers_of blocks) as -> by reflexivity.
    unfold yields. destruct (_process_instruction cb) as [cb' yielded].
    apply bind_Ok in Hrun as (ts & -> & Hrun).
    apply bind_Ok in Hrun as (st1 & H1 & Hrun).
    apply bind_Ok in Hrun as ([rest st2] & H2 & Hrun).
    injection Hrun as _ <-.
    apply transfer_loop_paired in H1 as (Hp1 & Ha1 & Hd1 & Hh1).
    2:{ simpl. apply paired_app; [done|].
        intros [|j] ? ? ? ? Hj; simpl in Hj; discriminate Hj. }
    destruct (IH _ _ _ _ H2 Hp1) as (Hp2 & Ha2 & Hd2 & Hh2).
    split; [done|]. rewrite Ha2, Hd2, Hh2, Ha1, Hd1, Hh1. simpl.
    rewrite !count_app. cbn. lia.
Qed.

End Transfers.

Lemma paired_trailing (tl : dict bool) : paired (trailing_drops tl).
Proof.
  intros i m v slot well Hi. apply list_elem_of_lookup_2 in Hi.
  unfold trailing_drops in Hi. apply list_elem_of_In, in_flat_map in Hi
    as ([k b] & _ & Hin).
  destruct b; simpl in Hin; [|done]. by destruct Hin.
Qed.

Lemma count_trailing (kind : snippet → bool) (tl : dict bool) :
  (∀ m, kind (DropTip m) = false) → count kind (trailing_drops tl) = 0.
Proof.
  intros Hk. unfold count, trailing_drops.
  induction tl as [|[k [|]] tl IH]; simpl; [done| |done].
  by rewrite Hk.
Qed.

(** X4: in the list a successful [_create_commands] returns, every
    aspirate is directly followed by a dispense of the same volume with
    the same pipette; there is one aspirate and one dispense for each
    triple the blocks yield, and one comment line for each block. *)
Theorem one_aspirate_dispense_per_transfer {R : Type} `{ResourceManager R}
  (rm : R) (recipe : list Command) (out : compiled R) :
  _create_commands rm recipe = Ok out →
  paired (protocol out) ∧
  count is_aspirate (protocol out) = transfers_of recipe ∧
  count is_dispense (protocol out) = transfers_of recipe ∧
  count is_header (protocol out) = length recipe.
Proof.
  unfold _create_commands. intros ([blocks st] & Hloop & Hrun)%bind_Ok.
  injection Hrun as <-. cbn [protocol].
  apply block_loop_paired in Hloop as (Hp & Ha & Hd & Hh).
  2:{ intros i ? ? ? ? Hi. simpl in Hi. by rewrite lookup_nil in Hi. }
  split; [apply paired_app; [done | apply paired_trailing]|].
  rewrite !count_app, !count_trailing, Ha, Hd, Hh by done. simpl.
  unfold count. simpl. lia.
Qed.

Lemma one_aspirate_dispense_per_transfer_witness :
  ∃ out, _create_commands demo_deck demo_recipe = Ok out ∧
         paired (protocol out) ∧
         count is_aspirate (protocol out) = 4 ∧
         count is_dispense (protocol out) = 4 ∧
         count is_header (protocol out) = 2.
Proof.
  eexists. split; [vm_compute; reflexivity|].
  apply (one_aspirate_dispense_per_transfer demo_deck demo_recipe).
  vm_compute. reflexivity.
Defined.

(** ** Tips and mounts *)

Lemma dict_get_elem {V : Type} (k : string) (v : V) (d : dict V) :
  dict_get k d = Some v → (k, v) ∈ d.
Proof.
  induction d as [|[k0 v0] d IH]; simpl; [done|].
  destruct (String.eqb_spec k k0) as [->|Hne].
  - intros [= ->]. apply list_elem_of_here.
  - intros Hget. by apply list_elem_of_further, IH.
Qed.


Lemma dict_set_keys_present {V : Type} (k : string) (v v' : V) (d : dict V) :
  dict_get k d = Some v → (dict_set k v' d).*1 = d.*1.
Proof.
  intros Hget%dict_get_elem. rewrite dict_set_keys.
  rewrite bool_decide_eq_true_2; [done|].
  apply list_elem_of_fmap. by exists (k, v).
Qed.

Section Tips.

Context {R : Type} `{ResourceManager R}.

Lemma endpoint_tip_loaded (mk : option string → string → snippet)
  (loc : string) (st st' : state R) :
  endpoint mk loc st = Ok st' → tip_loaded st' = tip_loaded st.
Proof.
  unfold endpoint. intros (slot & Hslot & Hrun)%bind_Ok.
  apply bind_Ok in Hrun as (rm & Hrm & Hrun). by injection Hrun as <-.
Qed.

(** What a transfer does to [tip_loaded], next to the commands it
    appends: the mount is a key, and a pick is emitted exactly when the
    mount held no tip. *)
Lemma transfer_step_tips (bn : string) (dt : bool) (st st' : state R)
  (t : transfer) :
  transfer_step bn dt st t = Ok st' →
  ∃ m loaded pre slot_s slot_d,
    dict_get m (tip_loaded st) = Some loaded ∧
    (if loaded then pre = [] else ∃ r w, pre = [PickTip m r w]) ∧
    commands st' = commands st ++ transfer_commands pre m t slot_s slot_d dt ∧
    tip_loaded st'
    = (let tl := if loaded then tip_loaded st
                 else dict_set m true (tip_loaded st) in
       if dt then dict_set m false tl else tl).
Proof.
  destruct t as [[v src] dst]. unfold transfer_step.
  intros (om & Hdet & Hrun)%bind_Ok.
  destruct om as [m|]; [|discriminate].
  apply bind_Ok in Hrun as (st1 & H1 & Hrun).
  apply bind_Ok in Hrun as (st2 & H2 & Hrun).
  apply bind_Ok in Hrun as (st3 & H3 & Hrun).
  pose proof (endpoint_tip_loaded _ _ _ _ H2) as Ht2.
  pose proof (endpoint_tip_loaded _ _ _ _ H3) as Ht3.
  apply endpoint_shape in H2 as (slot_s & H2).
  apply endpoint_shape in H3 as (slot_d & H3).
  unfold check_tip in H1.
  apply bind_Ok in H1 as (loaded & Hget%dict_item_Ok & H1).
  injection Hrun as <-.
  assert (∃ pre,
    (if loaded then pre = [] else ∃ r w, pre = [PickTip m r w]) ∧
    commands st1 = commands st ++ pre ∧
    tip_loaded st1 = (if loaded then tip_loaded st
                      else dict_set m true (tip_loaded st)))
    as (pre & Hpre & Hc1 & Ht1).
  { destruct loaded; simpl in H1.
    - injection H1 as <-. exists []. by rewrite app_nil_r.
    - destruct (mount_to_pipette (resource_manager st) !! m) as [pn|];
        [|discriminate].
      apply bind_Ok in H1 as ([[rack well] rm] & Htip & H1).
      injection H1 as <-. simpl. exists [PickTip m rack well].
      split; [by eexists _, _ | done]. }
  exists m, loaded, pre, slot_s, slot_d.
  split; [done|]. split; [done|].
  unfold transfer_commands. cbn [fst snd].
  destruct dt; simpl; rewrite ?Ht3, ?Ht2, ?Ht1, H3, H2, Hc1, <- !app_assoc;
    done.
Qed.





End Tips.




Lemma drops_le_count (m : string) (cs : list snippet) :
  (drops m cs ≤ count is_any_drop cs)%nat.
Proof.
  unfold drops, count. induction cs as [|c cs IH]; simpl; [done|].
  destruct c; simpl; try lia. destruct (String.eqb m mount); simpl; lia.
Qed.

Lemma picks_app (m : string) (a b : list snippet) :
  picks m (a ++ b) = picks m a + picks m b.
Proof. unfold picks. by rewrite List.filter_app, length_app. Qed.

Lemma trailing_all_drops (tl : dict bool) :
  Forall (λ c, is_any_drop c = true) (trailing_drops tl).
Proof.
  unfold trailing_drops. induction tl as [|[k [|]] tl IH]; simpl; auto.
Qed.

Section OneTip.

Context {R : Type} `{ResourceManager R}.

Lemma balanced_initial (rm : R) :
  balanced {| commands := [];
              tip_loaded := [("left", false); ("right", false)];
              resource_manager := rm |}.
Proof.
  split; [|split]; simpl.
  - apply NoDup_cons_2; [|apply NoDup_singleton].
    rewrite list_elem_of_singleton. discriminate.
  - intros m. unfold holding. simpl.
    by destruct (String.eqb m "left"), (String.eqb m "right").
  - apply alternating_nil.
Qed.

Lemma transfer_loop_keeps (bn : string) (ts : list transfer) :
  ∀ st st' : state R,
    transfer_loop bn false st ts = Ok st' →
    count is_any_drop (commands st') = count is_any_drop (commands st).
Proof.
  induction ts as [|t ts IH]; intros st st' Hrun; simpl in Hrun.
  - by injection Hrun as <-.
  - apply bind_Ok in Hrun as (st1 & Hstep & Hrun).
    apply transfer_step_tips in Hstep
      as (m & loaded & pre & ss & sd & _ & Hpre & Hcs & _).
    rewrite (IH _ _ Hrun), Hcs, count_app. unfold transfer_commands.
    destruct loaded; [subst pre|destruct Hpre as (r & w & ->)]; cbn; lia.
Qed.

Lemma block_loop_keeps (blocks : list Command) :
  Forall (λ cb, drop_tip cb = false) blocks →
  ∀ (i : nat) (st st' : state R) (blocks' : list Command),
    block_loop i blocks st = Ok (blocks', st') →
    count is_any_drop (commands st') = count is_any_drop (commands st).
Proof.
  induction 1 as [|cb blocks Hdt Hall IH]; intros i st st' blocks' Hrun.
  - by injection Hrun as _ <-.
  - cbn [block_loop] in Hrun.
    pose proof (process_instruction_drop_tip cb) as Hflag.
    destruct (_process_instruction cb) as [cb' yielded].
    cbn [fst] in Hflag. rewrite Hflag, Hdt in Hrun.
    apply bind_Ok in Hrun as (ts & -> & Hrun).
    apply bind_Ok in Hrun as (st1 & H1 & Hrun).
    apply bind_Ok in Hrun as ([rest st2] & H2 & Hrun).
    injection Hrun as _ <-.
    rewrite (IH _ _ _ _ H2), (transfer_loop_keeps _ _ _ _ H1). simpl.
    rewrite count_app. cbn. lia.
Qed.

(** X6: when no block of the recipe has [drop_tip] set, each pipette picks
    at most one tip for the whole recipe, and the tips are dropped only
    at the very end: the compiled list is a part without drops followed
    by drops alone. *)
Theorem one_tip_per_mount (rm : R) (recipe : list Command) (out : compiled R) :
  Forall (λ cb, drop_tip cb = false) recipe →
  _create_commands rm recipe = Ok out →
  (∀ mount, (picks mount (protocol out) ≤ 1)%nat) ∧
  ∃ body tail, protocol out = body ++ tail ∧
               count is_any_drop body = 0 ∧
               Forall (λ c, is_any_drop c = true) tail.
Proof.
  intros Hall. unfold _create_commands.
  intros ([blocks st] & Hloop & Hrun)%bind_Ok.
  injection Hrun as <-. cbn [protocol].
  pose proof (block_loop_keeps _ Hall _ _ _ _ Hloop) as Hdrops.
  apply block_loop_balanced in Hloop as (_ & Hbal & _);
    [|apply balanced_initial].
  simpl in Hdrops. split.
  - intros m. rewrite picks_app, picks_trailing, Hbal.
    pose proof (drops_le_count m (commands st)).
    pose proof (holding_le m (tip_loaded st)). unfold count in *.
    simpl in Hdrops. lia.
  - exists (commands st), (trailing_drops (tip_loaded st)).
    split; [done|]. split; [done | apply trailing_all_drops].
Qed.

End OneTip.

Lemma one_tip_per_mount_witness :
  ∃ out, _create_commands demo_deck keeping_recipe = Ok out ∧
         picks "left" (protocol out) = 1 ∧
         picks "right" (protocol out) = 1 ∧
         (∀ mount, (picks mount (protocol out) ≤ 1)%nat).
Proof.
  eexists. split; [vm_compute; reflexivity|].
  split; [reflexivity|]. split; [reflexivity|].
  apply (one_tip_per_mount demo_deck keeping_recipe).
  - repeat constructor.
  - vm_compute. reflexivity.
Defined.

Section Mounts.

Context {R : Type} `{ResourceManager R}.

Lemma known_mount_intro (c : snippet) (m : string) :
  m = "left" ∨ m = "right" → mount_of c = Some m → known_mount c.
Proof. intros Hm Hc m' Hm'. congruence. Qed.

Lemma known_mount_none (c : snippet) : mount_of c = None → known_mount c.
Proof. intros Hc m' Hm'. congruence. Qed.

Lemma transfer_step_mounts (bn : string) (dt : bool) (st st' : state R)
  (t : transfer) :
  (tip_loaded st).*1 = ["left"; "right"] →
  Forall known_mount (commands st) →
  transfer_step bn dt st t = Ok st' →
  (tip_loaded st').*1 = ["left"; "right"] ∧ Forall known_mount (commands st').
Proof.
  intros Hkeys Hcs (m & loaded & pre & ss & sd & Hget & Hpre & Hcmd & Htl)
    %transfer_step_tips.
  assert (m = "left" ∨ m = "right") as Hm.
  { apply dict_get_elem in Hget.
    assert (m ∈ (tip_loaded st).*1) as Hin
      by (apply list_elem_of_fmap; by exists (m, loaded)).
    rewrite Hkeys in Hin. apply elem_of_cons in Hin as [->|Hin]; [by left|].
    apply list_elem_of_singleton in Hin. by right. }
  split.
  - rewrite Htl. cbn zeta.
    assert ((if loaded then tip_loaded st
             else dict_set m true (tip_loaded st)).*1 = ["left"; "right"]
            ∧ ∃ b, dict_get m (if loaded then tip_loaded st
                                else dict_set m true (tip_loaded st)) = Some b)
      as [Hk1 [b Hb]].
    { destruct loaded; [eauto|]. split.
      - by rewrite (dict_set_keys_present _ _ _ _ Hget).
      - exists true. by rewrite dict_get_set, String.eqb_refl. }
    destruct dt; [|done]. by rewrite (dict_set_keys_present _ _ _ _ Hb).
  - rewrite Hcmd. apply Forall_app. split; [done|].
    assert (Forall known_mount pre) as Hp.
    { destruct loaded; [subst pre; constructor|].
      destruct Hpre as (r & w & ->).
      apply Forall_cons. split; [by apply (known_mount_intro _ m)|constructor]. }
    unfold transfer_commands. apply Forall_app. split; [done|].
    destruct dt; simpl;
      repeat (apply Forall_cons; split;
              [first [by apply (known_mount_intro _ m)
                     |by apply known_mount_none]|]);
      constructor.
Qed.

Lemma transfer_loop_mounts (bn : string) (dt : bool) (ts : list transfer) :
  ∀ st st' : state R,
    (tip_loaded st).*1 = ["left"; "right"] →
    Forall known_mount (commands st) →
    transfer_loop bn dt st ts = Ok st' →
    (tip_loaded st').*1 = ["left"; "right"] ∧
    Forall known_mount (commands st').
Proof.
  induction ts as [|t ts IH]; intros st st' Hkeys Hcs Hrun; simpl in Hrun.
  - by injection Hrun as <-.
  - apply bind_Ok in Hrun as (st1 & Hstep & Hrun).
    apply transfer_step_mounts in Hstep as [Hk1 Hc1]; [|done..].
    by eapply IH.
Qed.

Lemma block_loop_mounts (blocks : list Command) :
  ∀ (i : nat) (st st' : state R) (blocks' : list Command),
    (tip_loaded st).*1 = ["left"; "right"] →
    Forall known_mount (commands st) →
    block_loop i blocks st = Ok (blocks', st') →
    (tip_loaded st').*1 = ["left"; "right"] ∧
    Forall known_mount (commands st').
Proof.
  induction blocks as [|cb blocks IH];
    intros i st st' blocks' Hkeys Hcs Hrun.
  - by injection Hrun as _ <-.
  - cbn [block_loop] in Hrun.
    destruct (_process_instruction cb) as [cb' yielded].
    apply bind_Ok in Hrun as (ts & -> & Hrun).
    apply bind_Ok in Hrun as (st1 & H1 & Hrun).
    apply bind_Ok in Hrun as ([rest st2] & H2 & Hrun).
    injection Hrun as _ <-.
    apply transfer_loop_mounts in H1 as [Hk1 Hc1]; [by eapply IH|done|].
    simpl. apply Forall_app. split; [done|].
    apply Forall_cons. split; [by apply known_mount_none|constructor].
Qed.

Lemma trailing_mounts (tl : dict bool) :
  tl.*1 = ["left"; "right"] → Forall known_mount (trailing_drops tl).
Proof.
  destruct tl as [|[k1 b1] [|[k2 b2] [|? ?]]]; try discriminate.
  intros [= -> ->]. unfold trailing_drops.
  destruct b1, b2; simpl;
    repeat (apply Forall_cons; split;
            [first [by apply (known_mount_intro _ "left"); auto
                   |by apply (known_mount_intro _ "right"); auto]|]);
    constructor.
Qed.

(** X7: the list a successful [_create_commands] returns names no pipette
    mount but the left and the right one, whatever mounts the resource
    manager knows. *)
Theorem only_left_and_right (rm : R) (recipe : list Command)
  (out : compiled R) :
  _create_commands rm recipe = Ok out →
  ∀ c m, c ∈ protocol out → mount_of c = Some m → m = "left" ∨ m = "right".
Proof.
  unfold _create_commands. intros ([blocks st] & Hloop & Hrun)%bind_Ok.
  injection Hrun as <-. cbn [protocol].
  apply block_loop_mounts in Hloop as [Hkeys Hcs]; [|done|constructor].
  intros c m Hc. 
  assert (Forall known_mount (commands st ++ trailing_drops (tip_loaded st)))
    as Hall by (apply Forall_app; split; [done | by apply trailing_mounts]).
  rewrite Forall_forall in Hall. exact (Hall c Hc m).
Qed.

(** X8: a mount other than left or right is a missing key of
    [tip_loaded]: when the resource manager gives one for the first
    triple of the recipe, the compilation ends with a [KeyError] for that
    mount. *)
Theorem unknown_mount_rejected (rm : R) (cb : Command) (rest : list Command)
  (v : pyval) (src dst : string) (ts : list transfer) (m : string) :
  yields cb = Ok ((v, src, dst) :: ts) →
  determine_pipette rm v = Ok (Some m) →
  m ≠ "left" → m ≠ "right" →
  _create_commands rm (cb :: rest) = Raise (KeyError m).
Proof.
  intros Hy Hdet Hl Hr. unfold _create_commands, yields in *.
  cbn [block_loop]. destruct (_process_instruction cb) as [cb' yielded].
  cbn [snd] in Hy. subst yielded.
  cbn [mbind result_bind transfer_loop]. unfold transfer_step.
  cbn [emit resource_manager]. rewrite Hdet.
  cbn [mbind result_bind]. unfold check_tip, dict_item.
  cbn [emit tip_loaded dict_get].
  destruct (String.eqb_spec m "left"); [done|].
  destruct (String.eqb_spec m "right"); [done|]. reflexivity.
Qed.

End Mounts.

Lemma only_left_and_right_witness :
  ∃ out, _create_commands demo_deck demo_recipe = Ok out ∧
         ∀ c m, c ∈ protocol out → mount_of c = Some m →
                m = "left" ∨ m = "right".
Proof.
  eexists. split; [vm_compute; reflexivity|].
  apply (only_left_and_right demo_deck demo_recipe).
  vm_compute. reflexivity.
Defined.

Lemma unknown_mount_rejected_witness :
  determine_pipette odd_deck (PInt 50) = Ok (Some "center") ∧
  _create_commands odd_deck keeping_recipe = Raise (KeyError "center").
Proof.
  split; [reflexivity|].
  eapply (unknown_mount_rejected odd_deck _ _ (PInt 50) "src:A1" "dst:B1");
    [reflexivity | reflexivity | discriminate | discriminate].
Defined.

(** ** Blocks without transfers *)

(** X9: a block whose volume is still a column name and whose source and
    destination are single locations yields no triple and raises nothing:
    at any place of the recipe it contributes its comment line alone, and
    a recipe made of it compiles to that line. *)
Theorem unresolved_volume_skipped {R : Type} `{ResourceManager R}
  (nm : option string) (col src dst : string) (dt : bool) :
  yields (column_block nm col src dst dt) = Ok [] ∧
  (∀ (i : nat) (rest : list Command) (st : state R),
     block_loop i (column_block nm col src dst dt :: rest) st
     = '(rest', st') ←
         block_loop (S i) rest
           (emit st (BlockHeader (block_name i (column_block nm col src dst dt))));
       mret (column_block nm col src dst dt :: rest', st')) ∧
  (∀ rm : R,
     _create_commands rm [column_block nm col src dst dt]
     = Ok {| protocol :=
               [BlockHeader (block_name 0 (column_block nm col src dst dt))];
             blocks_after := [column_block nm col src dst dt];
             manager_after := rm |}).
Proof.
  split; [reflexivity|].
  split; [intros i rest st | intros rm]; reflexivity.
Qed.

(** ** More on command preprocessing *)

Lemma mapM_id {A : Type} (f : A → result A) (l : list A) :
  Forall (λ x, f x = Ok x) l → mapM f l = Ok l.
Proof.
  induction 1 as [|x l Hx Hl IH]; [done|]. cbn [mapM]. by rewrite Hx, IH.
Qed.

Lemma postprocess_command_plain_locations (resources : Resources)
  (key : option string) (c : Command) :
  plain_locations c = true → postprocess_command resources key c = Ok c.
Proof.
  unfold plain_locations. intros Hp.
  apply andb_prop in Hp as [Hp Hpeek].
  apply andb_prop in Hp as [Hsrc Hdst].
  apply negb_true_iff in Hsrc, Hdst.
  destruct (peek (source c)) as [s|] eqn:Hps; [|discriminate].
  destruct (peek (destination c)) as [d|] eqn:Hpd; [|discriminate].
  apply negb_true_iff in Hpeek.
  unfold postprocess_command. rewrite Hsrc. cbn [mbind result_bind mret result_ret].
  rewrite Hps. cbn [mbind result_bind]. rewrite Hpeek.
  cbn [mbind result_bind mret result_ret]. rewrite Hdst.
  cbn [mbind result_bind mret result_ret]. rewrite Hpd.
  cbn [mbind result_bind]. reflexivity.
Qed.

Lemma plain_plain_locations (c : Command) :
  plain c = true → plain_locations c = true.
Proof. unfold plain, plain_locations. by intros [? _]%andb_prop. Qed.

(** X10: a recipe of plain blocks, one at least, passes the preprocessing
    unchanged, whatever tables are loaded: the call returns, and returns
    the recipe it was given. *)
Theorem plain_recipe_unchanged (resources : Resources)
  (commands : list Command) :
  commands ≠ [] → Forall (λ c, plain c = true) commands →
  _postprocess_commands resources commands = Ok commands.
Proof.
  intros Hne Hall. unfold _postprocess_commands.
  rewrite mapM_id.
  2:{ eapply Forall_impl; [exact Hall|]. intros c Hc. cbn beta.
      by apply postprocess_command_plain_locations, plain_plain_locations. }
  cbn [mbind result_bind]. unfold postprocess_volume.
  destruct commands as [|c0 cs0 _] using rev_ind; [done|].
  rewrite fmap_app. cbn [fmap list_fmap]. rewrite List.last_last.
  apply Forall_app in Hall as [_ Hc0]. apply Forall_cons in Hc0 as [Hc0 _].
  pose proof (plain_volume _ Hc0) as Hv.
  destruct (volume c0) as [[z|col]|l]; [done | by destruct (Hv col) | done].
Qed.

Lemma plain_recipe_unchanged_witness :
  demo_recipe ≠ [] ∧
  _postprocess_commands [("plate", plate_table)] demo_recipe = Ok demo_recipe.
Proof.
  split; [discriminate|].
  apply (plain_recipe_unchanged [("plate", plate_table)] demo_recipe);
    [discriminate | repeat constructor].
Defined.

Lemma column_first_table (k : string) (df : DataFrame) (rest : Resources)
  (col : string) :
  column ((k, df) :: rest) (Some k) col
  = match df !! col with
    | Some cells => Ok cells
    | None => Raise (KeyError col)
    end.
Proof.
  unfold column, dict_item. cbn [dict_get]. by rewrite String.eqb_refl.
Qed.



Lemma mapM_int_raises (cells : list pyval) (s : string) :
  PStr s ∈ cells → int_of_string s = None →
  mapM int cells = Raise ValueError.
Proof.
  intros Hin Hs. induction cells as [|x cells IH]; [by apply elem_of_nil in Hin|].
  cbn [mapM]. apply elem_of_cons in Hin as [<-|Hin].
  - cbn [int]. by rewrite Hs.
  - rewrite (IH Hin). destruct x as [z|s']; cbn [int]; [done|].
    by destruct (int_of_string s').
Qed.

(** X12: how the lookup of the last block's volume fails.  A recipe
    without blocks raises [UnboundLocalError] for [command]; with plain
    sources and destinations and a column name as the last volume, the
    call raises [UnboundLocalError] for [resource_key] when no table is
    loaded, [KeyError] when the first table has no such column, and
    [ValueError] when a cell of the column is a string of ASCII
    characters that reads as no integer. *)
Theorem volume_lookup_errors (init : list Command) (c : Command)
  (col : string) :
  Forall (λ c, plain_locations c = true) (init ++ [c]) →
  volume c = Scalar (PStr col) →
  (∀ resources, _postprocess_commands resources []
                = Raise (UnboundLocalError "command")) ∧
  _postprocess_commands [] (init ++ [c])
  = Raise (UnboundLocalError "resource_key") ∧
  (∀ k (df : DataFrame) rest,
     df !! col = None →
     _postprocess_commands ((k, df) :: rest) (init ++ [c])
     = Raise (KeyError col)) ∧
  (∀ k (df : DataFrame) rest cells s,
     df !! col = Some cells → PStr s ∈ cells →
     is_ascii s = true → int_of_string s = None →
     _postprocess_commands ((k, df) :: rest) (init ++ [c])
     = Raise ValueError).
Proof.
  intros Hall Hv.
  assert (∀ resources,
    _postprocess_commands resources (init ++ [c])
    = (cells ← column resources (first_resource_key resources) col;
       new_volumes ← mapM int cells;
       mret (init ++ [set_volume c (List (PInt <$> new_volumes))])))
    as Hrun.
  { intros resources. unfold _postprocess_commands. rewrite mapM_id.
    2:{ eapply Forall_impl; [exact Hall|]. intros c' Hc'. cbn beta.
        by apply postprocess_command_plain_locations. }
    cbn [mbind result_bind]. unfold postprocess_volume.
    rewrite fmap_app. cbn [fmap list_fmap].
    by rewrite List.last_last, Hv, List.removelast_last. }
  split; [done|]. split; [by rewrite Hrun|]. split.
  - intros k df rest Hcol. rewrite Hrun. cbn [first_resource_key].
    by rewrite column_first_table, Hcol.
  - intros k df rest cells s Hcol Hin _ Hs. rewrite Hrun.
    cbn [first_resource_key]. rewrite column_first_table, Hcol.
    cbn [mbind result_bind]. by rewrite (mapM_int_raises _ _ Hin Hs).
Qed.

Lemma volume_lookup_errors_witness :
  _postprocess_commands [] column_recipe
  = Raise (UnboundLocalError "resource_key") ∧
  _postprocess_commands [("plate", ∅)] column_recipe = Raise (KeyError "vol") ∧
  _postprocess_commands [("plate", bad_table)] column_recipe = Raise ValueError.
Proof.
  pose proof (volume_lookup_errors [by_number] by_column "vol"
                ltac:(repeat constructor) eq_refl) as (_ & Hkey & Hcol & Hint).
  split; [exact Hkey|]. split.
  - apply (Hcol "plate" ∅ []). reflexivity.
  - apply (Hint "plate" bad_table [] [PInt 10; PStr "a lot"] "a lot").
    + reflexivity.
    + apply list_elem_of_further, list_elem_of_here.
    + reflexivity.
    + reflexivity.
Defined.

(** ** Which table is read *)

Lemma postprocess_command_with (resources : Resources) (key : option string)
  (c : Command) :
  postprocess_command resources key c
  = postprocess_with (column resources key) c.
Proof. reflexivity. Qed.

(** The loop body depends on the tables through the lookup alone. *)
Lemma postprocess_with_ext (f g : string → result (list pyval)) (c : Command) :
  (∀ col, f col = g col) → postprocess_with f c = postprocess_with g c.
Proof.
  intros Hext. unfold postprocess_with.
  destruct (if has_alias_list (source c)
            then l ← unpack_field (source c); mret (set_source c (List l))
            else mret c) as [c1|e]; [|done].
  cbn [mbind result_bind].
  destruct (peek (source c1)) as [p|e]; [|done].
  cbn [mbind result_bind]. cbv zeta.
  destruct (is_column_name (last_piece (split ":" p))); [|done].
  rewrite (Hext (last_piece (split ":" p))). destruct (g (last_piece (split ":" p))) as [cells|e]; [|done].
  cbn [mbind result_bind].
  destruct (column_locations (source c1) cells) as [locs|e]; [|done].
  cbn [mbind result_bind mret result_ret].
  destruct (if has_alias_list (destination (set_source c1 (List locs)))
            then l ← unpack_field (destination (set_source c1 (List locs)));
                 mret (set_destination (set_source c1 (List locs)) (List l))
            else Ok (set_source c1 (List locs))) as [c2|e]; [|done].
  cbn [mbind result_bind].
  destruct (peek (destination c2)) as [p2|e]; [|done].
  cbn [mbind result_bind]. reflexivity.
Qed.

Lemma mapM_ext {A B : Type} (f g : A → result B) (l : list A) :
  (∀ x, f x = g x) → mapM f l = mapM g l.
Proof.
  intros Hext. induction l as [|x l IH]; [done|].
  cbn [mapM]. by rewrite Hext, IH.
Qed.

(** X13: only the first table is ever read: the tables loaded after it
    have no influence on what the preprocessing returns or raises. *)
Theorem only_first_table_read (k : string) (df : DataFrame)
  (rest rest' : Resources) (commands : list Command) :
  _postprocess_commands ((k, df) :: rest) commands
  = _postprocess_commands ((k, df) :: rest') commands.
Proof.
  assert (∀ col, column ((k, df) :: rest) (Some k) col
                 = column ((k, df) :: rest') (Some k) col) as Hext
    by (intros col; by rewrite !column_first_table).
  unfold _postprocess_commands. cbn [first_resource_key].
  rewrite (mapM_ext _ (postprocess_command ((k, df) :: rest') (Some k))).
  2:{ intros c. rewrite !postprocess_command_with.
      by apply postprocess_with_ext. }
  destruct (mapM _ commands) as [cs|e]; [|done]. cbn [mbind result_bind].
  unfold postprocess_volume.
  destruct (List.last (Some <$> cs) None) as [c|]; [|done].
  destruct (volume c) as [[z|col]|l]; [done| |done].
  by rewrite Hext.
Qed.

(** ** Splitting and joining *)

Lemma split_first_colon (p r acc : string) :
  contains ":" p = false →
  split_go ":" 0 (p +:+ ":" +:+ r) acc = (acc +:+ p) :: split_go ":" 0 r "".
Proof.
  revert acc. induction p as [|c p IH]; intros acc Hp.
  - change ("" +:+ ":" +:+ r) with (String ":" r).
    cbn [split_go]. rewrite prefix_colon, Ascii.eqb_refl.
    cbn [String.length Nat.sub]. by rewrite append_empty_r.
  - rewrite contains_colon_cons in Hp. apply orb_false_elim in Hp as [Hc Hp].
    rewrite append_cons. cbn [split_go].
    rewrite prefix_colon, Hc, (IH _ Hp), append_assoc. done.
Qed.

Lemma split_go_not_nil (sep : string) (skip : nat) (s acc : string) :
  split_go sep skip s acc ≠ [].
Proof.
  revert skip acc. induction s as [|c s IH]; intros skip acc; [done|].
  cbn [split_go]. destruct skip; [|done].
  by destruct (String.prefix sep (String c s)).
Qed.

Lemma join_cons (sep x : string) (l : list string) :
  l ≠ [] → join sep (x :: l) = x +:+ sep +:+ join sep l.
Proof. by destruct l. Qed.

(** Joining the pieces of a string with colons gives the string back. *)
Lemma join_split_colon (s acc : string) :
  join ":" (split_go ":" 0 s acc) = acc +:+ s.
Proof.
  revert acc. induction s as [|c s IH]; intros acc.
  - by rewrite append_empty_r.
  - cbn [split_go]. rewrite prefix_colon.
    destruct (Ascii.eqb_spec ":" c) as [<-|Hne].
    + cbn [String.length Nat.sub].
      rewrite join_cons by apply split_go_not_nil. by rewrite IH.
    + by rewrite IH, append_assoc.
Qed.

Lemma split_go_comma (w rest acc : string) :
  none_of "," w = true →
  split_go ", " 0 (w +:+ ", " +:+ rest) acc
  = (acc +:+ w) :: split_go ", " 0 rest "".
Proof.
  revert acc. induction w as [|c w IH]; intros acc Hw.
  - change ("" +:+ ", " +:+ rest) with (String "," (String " " rest)).
    rewrite append_empty_r. cbn [split_go String.prefix].
    destruct (ascii_dec "," ","); [|done]. destruct (ascii_dec " " " "); [|done].
    replace (String.prefix "" rest) with true by (by destruct rest).
    reflexivity.
  - cbn [none_of char_in] in Hw. apply andb_prop in Hw as [Hc Hw].
    rewrite orb_false_r in Hc. apply negb_true_iff in Hc.
    rewrite append_cons. cbn [split_go String.prefix].
    destruct (ascii_dec "," c) as [<-|_]; [by rewrite Ascii.eqb_refl in Hc|].
    by rewrite (IH _ Hw), append_assoc.
Qed.

Lemma split_go_no_comma (w acc : string) :
  none_of "," w = true → split_go ", " 0 w acc = [acc +:+ w].
Proof.
  revert acc. induction w as [|c w IH]; intros acc Hw.
  - by rewrite append_empty_r.
  - cbn [none_of char_in] in Hw. apply andb_prop in Hw as [Hc Hw].
    rewrite orb_false_r in Hc. apply negb_true_iff in Hc.
    cbn [split_go String.prefix].
    destruct (ascii_dec "," c) as [<-|_]; [by rewrite Ascii.eqb_refl in Hc|].
    by rewrite (IH _ Hw), append_assoc.
Qed.

(** Splitting a comma-joined list gives the list back. *)
Lemma split_join_comma (e : string) (es : list string) :
  Forall (λ e, none_of "," e = true) (e :: es) →
  split ", " (join ", " (e :: es)) = e :: es.
Proof.
  unfold split. revert e. induction es as [|e' es IH]; intros e Hall.
  - apply Forall_cons in Hall as [He _]. cbn [join String.concat].
    by rewrite split_go_no_comma.
  - apply Forall_cons in Hall as [He Hall].
    rewrite join_cons by done. rewrite split_go_comma by done.
    by rewrite IH.
Qed.

(** ** Stripping brackets *)

Lemma rev_app_append (s1 s2 : string) :
  String.rev_app s1 s2 = String.rev s1 +:+ s2.
Proof.
  unfold String.rev. revert s2. induction s1 as [|c s1 IH]; intros s2; [done|].
  cbn [String.rev_app]. rewrite (IH (String c s2)), (IH (String c "")).
  by rewrite append_assoc.
Qed.

Lemma rev_app_snoc (s acc : string) (c : ascii) :
  String.rev_app (s +:+ String c "") acc = String c (String.rev_app s acc).
Proof.
  revert acc. induction s as [|x s IH]; intros acc; [reflexivity|].
  rewrite append_cons. cbn [String.rev_app]. by rewrite IH.
Qed.

Lemma rev_snoc (s : string) (c : ascii) :
  String.rev (s +:+ String c "") = String c (String.rev s).
Proof. apply rev_app_snoc. Qed.

Lemma rev_involutive (s : string) : String.rev (String.rev s) = s.
Proof.
  induction s as [|c s IH]; [done|].
  unfold String.rev at 2. cbn [String.rev_app].
  rewrite rev_app_append, rev_snoc. by rewrite IH.
Qed.

Lemma none_of_app (chars a b : string) :
  none_of chars (a +:+ b) = none_of chars a && none_of chars b.
Proof.
  induction a as [|c a IH]; [done|].
  rewrite append_cons. cbn [none_of]. by rewrite IH, andb_assoc.
Qed.

Lemma none_of_rev (chars s : string) :
  none_of chars (String.rev s) = none_of chars s.
Proof.
  induction s as [|c s IH]; [done|].
  unfold String.rev. cbn [String.rev_app]. rewrite rev_app_append.
  rewrite none_of_app, IH. cbn [none_of]. by rewrite andb_true_r, andb_comm.
Qed.

Lemma lstrip_none (chars s : string) :
  none_of chars s = true → lstrip chars s = s.
Proof.
  destruct s as [|c s]; [done|]. cbn [none_of lstrip].
  intros [Hc _]%andb_prop. apply negb_true_iff in Hc. by rewrite Hc.
Qed.

(** A bracketed text without inner brackets is stripped to the text. *)
Lemma strip_brackets (body : string) :
  none_of "][" body = true → strip "][" ("[" +:+ body +:+ "]") = body.
Proof.
  intros Hb. unfold strip.
  change ("[" +:+ body +:+ "]") with (String "[" (body +:+ "]")).
  assert (lstrip "][" (String "[" (body +:+ "]"))
          = lstrip "][" (body +:+ "]")) as -> by reflexivity.
  destruct body as [|c b]; [reflexivity|].
  rewrite append_cons.
  assert (lstrip "][" (String c (b +:+ "]")) = String c (b +:+ "]")) as ->.
  { cbn [none_of] in Hb. apply andb_prop in Hb as [Hc _].
    apply negb_true_iff in Hc. cbn [lstrip]. by rewrite Hc. }
  rewrite <- append_cons, rev_snoc.
  assert (lstrip "][" (String "]" (String.rev (String c b)))
          = lstrip "][" (String.rev (String c b))) as -> by reflexivity.
  rewrite lstrip_none by (by rewrite none_of_rev).
  apply rev_involutive.
Qed.

Lemma none_of_join (chars sep : string) (es : list string) :
  none_of chars sep = true →
  Forall (λ e, none_of chars e = true) es →
  none_of chars (join sep es) = true.
Proof.
  intros Hsep. induction 1 as [|e es He Hes IH]; [done|].
  destruct es as [|e' es]; [done|].
  rewrite join_cons by done. rewrite !none_of_app, He, Hsep. exact IH.
Qed.

(** ** [_unpack_alias] *)

Lemma unpack_elements (alias : string) (es : list string) :
  flat_map
    (λ location,
       if (String.length location =? 0)%nat then []
       else if negb (contains ":" location)
            then [alias +:+ ":" +:+ location]
            else [location])
    es
  = qualify alias
      <$> List.filter (λ e, negb (String.length e =? 0)%nat) es.
Proof.
  induction es as [|e es IH]; [done|]. cbn [flat_map List.filter].
  rewrite IH.
  destruct (String.length e =? 0)%nat; [done|].
  cbn [negb fmap list_fmap]. unfold qualify at 2.
  by destruct (contains ":" e).
Qed.

(** X14: alias expansion.  For an alias without colon and elements
    without commas and brackets, [alias:[e1, e2, ...]] is unpacked to its
    elements, in order: an element with a colon is kept as it is, any
    other gets the alias in front, and empty elements, as a comma before
    the closing bracket leaves one, are dropped. *)
Theorem unpack_alias_expands (alias : string) (es : list string) :
  contains ":" alias = false →
  Forall (λ e, element_ok e = true) es →
  _unpack_alias (alias +:+ ":[" +:+ join ", " es +:+ "]")
  = qualify alias
      <$> List.filter (λ e, negb (String.length e =? 0)%nat) es.
Proof.
  intros Halias Hes.
  assert (Forall (λ e, none_of "," e = true) es
          ∧ Forall (λ e, none_of "][" e = true) es) as [Hcomma Hbr].
  { split; (eapply Forall_impl; [exact Hes|]); intros e;
      unfold element_ok; by intros [? ?]%andb_prop. }
  unfold _unpack_alias, split.
  change (alias +:+ ":[" +:+ join ", " es +:+ "]")
    with (alias +:+ ":" +:+ ("[" +:+ join ", " es +:+ "]")).
  rewrite split_first_colon by done.
  cbn [first_piece hd List.tl]. change ("" +:+ alias) with alias.
  rewrite join_split_colon. change ("" +:+ ?x) with x.
  rewrite strip_brackets by (by apply none_of_join).
  rewrite <- unpack_elements.
  destruct es as [|e es]; [reflexivity|].
  fold (split ", " (join ", " (e :: es))). by rewrite split_join_comma.
Qed.

Lemma unpack_alias_expands_witness :
  _unpack_alias ("rack" +:+ ":[" +:+ join ", " ["A1"; "alias2:B2"; "C3"; ""] +:+ "]")
  = ["rack:A1"; "alias2:B2"; "rack:C3"].
Proof.
  apply (unpack_alias_expands "rack" ["A1"; "alias2:B2"; "C3"; ""]);
    [reflexivity | repeat constructor].
Defined.

(** ** Loading without tables *)

Lemma mapM_Forall2 {A B : Type} (f : A → result B) (l : list A) (l' : list B) :
  mapM f l = Ok l' → Forall2 (λ x y, f x = Ok y) l l'.
Proof.
  revert l'. induction l as [|x l IH]; intros l' Hm; cbn [mapM] in Hm.
  - injection Hm as <-. constructor.
  - destruct (f x) as [y|] eqn:Hx; [|discriminate].
    destruct (mapM f l) as [ys|]; [|discriminate].
    injection Hm as <-. constructor; auto.
Qed.

(** Without tables the loop body can only expand aliases: a lookup would
    raise. *)
Lemma postprocess_command_no_tables (c c' : Command) :
  postprocess_command [] None c = Ok c' → only_expanded c c'.
Proof.
  rewrite postprocess_command_with. unfold postprocess_with.
  intros (c1 & H1 & Hrun)%bind_Ok.
  assert (only_expanded c c1 ∧ destination c1 = destination c) as [Hc1 Hd1].
  { destruct (has_alias_list (source c)).
    - apply bind_Ok in H1 as (l & Hl & H1). injection H1 as <-.
      unfold unpack_field in Hl. destruct (source c) as [s|] eqn:Hs;
        [|discriminate].
      injection Hl as <-. repeat split; simpl; try by left.
      right. by exists s.
    - injection H1 as <-. repeat split; by left. }
  apply bind_Ok in Hrun as (p & Hp & Hrun). cbv zeta in Hrun.
  destruct (is_column_name (last_piece (split ":" p))); [discriminate|].
  cbn [mbind result_bind mret result_ret] in Hrun.
  apply bind_Ok in Hrun as (c2 & H2 & Hrun).
  apply bind_Ok in Hrun as (p2 & Hp2 & Hrun). injection Hrun as <-.
  destruct Hc1 as (Hn & Hv & Hdt & Hsrc & _).
  destruct (has_alias_list (destination c1)).
  - apply bind_Ok in H2 as (l & Hl & H2). injection H2 as <-.
    unfold unpack_field in Hl. rewrite Hd1 in Hl.
    destruct (destination c) as [d|] eqn:Hd; [|discriminate].
    injection Hl as <-. repeat split; simpl; try done.
    right. by exists d.
  - injection H2 as <-. repeat split; try done. left. done.
Qed.

Lemma postprocess_volume_no_tables (cs cs' : list Command) :
  postprocess_volume [] None cs = Ok cs' → cs' = cs.
Proof.
  unfold postprocess_volume.
  destruct (List.last (Some <$> cs) None) as [c|]; [|discriminate].
  destruct (volume c) as [[z|col]|l]; [by intros [= <-] | discriminate
                                       | by intros [= <-]].
Qed.

Lemma load_resources_result
  (read_excel : string → result DataFrame) (resources : list Resource) :
  load_resources read_excel resources = Ok ([], []).
Proof. reflexivity. Qed.

(** X15: whatever the recipe lists as resources and whatever the reader
    would return, [load_config] reads no table, and when it returns, the
    blocks are those of the recipe, in order, with nothing changed but
    bracketed alias lists expanded: no volume and no location was taken
    from a table. *)
Theorem load_config_reads_no_table (read_excel : string → result DataFrame)
  (config : ProtocolConfig) (resources : Resources)
  (commands : list Command) :
  load_config read_excel config = Ok (resources, commands) →
  resources = [] ∧ Forall2 only_expanded (config_commands config) commands.
Proof.
  unfold load_config. rewrite load_resources_result.
  cbn [mbind result_bind fst]. intros (cs & Hrun & [= <- <-])%bind_Ok.
  split; [done|]. unfold _postprocess_commands in Hrun.
  cbn [first_resource_key] in Hrun.
  apply bind_Ok in Hrun as (cs1 & Hmap%mapM_Forall2 & ->%postprocess_volume_no_tables).
  eapply Forall2_impl; [exact Hmap|]. intros c c'.
  apply postprocess_command_no_tables.
Qed.

Lemma load_config_reads_no_table_witness :
  load_config (λ _, Raise ValueError) bracketed_config
  = Ok ([], [set_source (hd by_number (config_commands bracketed_config))
               (List ["src:A1"; "src:A2"])]) ∧
  Forall2 only_expanded (config_commands bracketed_config)
    [set_source (hd by_number (config_commands bracketed_config))
       (List ["src:A1"; "src:A2"])].
Proof.
  split; [reflexivity|].
  apply (load_config_reads_no_table (λ _, Raise ValueError) bracketed_config []).
  reflexivity.
Defined.

(** ** Locations from a column *)

Lemma mapM_pure {A B : Type} (h : A → B) (l : list A) :
  mapM (λ x, Ok (h x)) l = Ok (h <$> l).
Proof. induction l as [|x l IH]; [done|]. cbn [mapM]. by rewrite IH. Qed.

(** X16: a source [deck:col] whose last segment is made of ASCII
    characters and reads as a column name is
    replaced by one location per row of that column of the first table,
    each with the deck of the source in front, in row order; and the
    destination, a single location, is replaced by the same rows with
    its own first segment in front. *)
Theorem source_column_expanded (k : string) (df : DataFrame) (rest : Resources)
  (c : Command) (deck col dst : string) (cells : list pyval) :
  source c = Scalar (deck +:+ ":" +:+ col) →
  contains ":" deck = false → contains ":" col = false →
  contains ":[" (deck +:+ ":" +:+ col) = false →
  is_ascii col = true → is_column_name col = true →
  destination c = Scalar dst → contains ":[" dst = false →
  df !! col = Some cells →
  postprocess_command ((k, df) :: rest) (Some k) c
  = Ok (set_destination
          (set_source c (List ((λ cell, deck +:+ ":" +:+ str cell) <$> cells)))
          (List ((λ cell, first_piece (split ":" dst) +:+ ":" +:+ str cell)
                   <$> cells))).
Proof.
  intros Hsrc Hdeck Hcol Hbr _ Hname Hdst Hbrd Hcells.
  destruct c as [nm src0 dst0 vol dt]. cbn [source destination] in Hsrc, Hdst.
  subst src0 dst0.
  assert (last_piece (split ":" (deck +:+ ":" +:+ col)) = col) as E1
    by (unfold split; by rewrite split_one_colon).
  assert (first_piece (split ":" (deck +:+ ":" +:+ col)) = deck) as E2
    by (unfold split; by rewrite split_one_colon).
  assert (∀ s, column_locations (Scalar s) cells
               = Ok ((λ cell, first_piece (split ":" s) +:+ ":" +:+ str cell)
                       <$> cells)) as E3
    by (intros s; apply (mapM_pure (λ loc, _ +:+ ":" +:+ str loc))).
  unfold postprocess_command.
  cbn [source destination has_alias_list]. rewrite Hbr.
  cbn [mbind result_bind mret result_ret source peek]. cbv zeta.
  rewrite !E1, Hname, !column_first_table, !Hcells.
  cbn [mbind result_bind]. rewrite E3, E2.
  cbn [mbind result_bind mret result_ret set_source destination
       has_alias_list].
  rewrite Hbrd.
  cbn [mbind result_bind mret result_ret set_source destination peek].
  by rewrite E3.
Qed.

Lemma source_column_expanded_witness :
  postprocess_command [("plate", plate_table)] (Some "plate") wells_block
  = Ok (set_destination
          (set_source wells_block (List ["src:C1"; "src:C2"]))
          (List ["dst:C1"; "dst:C2"])).
Proof.
  apply (source_column_expanded "plate" plate_table [] wells_block
           "src" "wells" "dst:B1" [PStr "C1"; PStr "C2"]); reflexivity.
Defined.

(** ** The resource file that is written *)

(** X17: the closing [if] chain of [yaml_to_protocol] writes the resource
    state exactly when [resource_file_out] is given or [write_resources]
    is set; a file it names is one of the three paths it was given; and
    with [overwrite_resources_json] unset and neither [resource_file_out]
    nor [resource_file] passed, it never names the object's own resource
    file: it writes to a generated name, or not at all. *)
Theorem resource_dump_decision
  (resource_file_out resource_file self_resource_file : option pathlike)
  (write_resources overwrite : bool) :
  (resource_dump resource_file_out resource_file self_resource_file
     write_resources overwrite = None
   ↔ resource_file_out = None ∧ write_resources = false) ∧
  (∀ p, resource_dump resource_file_out resource_file self_resource_file
          write_resources overwrite = Some (Some p) →
        resource_file_out = Some p
        ∨ (resource_file = Some p ∧ truthy resource_file = true)
        ∨ (self_resource_file = Some p ∧ truthy self_resource_file = true
           ∧ overwrite = true)) ∧
  (overwrite = false → resource_file_out = None →
   truthy resource_file = false →
   resource_dump resource_file_out resource_file self_resource_file
     write_resources overwrite
   = if write_resources then Some None else None).
Proof.
  unfold resource_dump. split; [|split].
  - destruct resource_file_out as [p|]; [split; [done | by intros [? _]]|].
    destruct (truthy resource_file), (truthy self_resource_file),
      write_resources, overwrite; cbn;
      (split; [try done; discriminate | intros [_ ?]; done]).
  - intros p. destruct resource_file_out as [q|]; [intros [= ->]; by left|].
    destruct (truthy resource_file) eqn:Hrf, write_resources; cbn.
    + intros [= ->]. right. left. done.
    + destruct (truthy self_resource_file); done.
    + destruct (truthy self_resource_file) eqn:Hsrf, overwrite; cbn;
        try done. intros [= ->]. right. right. done.
    + destruct (truthy self_resource_file); done.
  - intros -> -> ->. cbn. by rewrite andb_false_r.
Qed.

Lemma resource_dump_decision_witness :
  resource_dump None None (Some (PathObj "deck.json")) true false = Some None ∧
  resource_dump None None (Some (PathObj "deck.json")) true true
  = Some (Some (PathObj "deck.json")).
Proof.
  split.
  - apply (proj2 (proj2 (resource_dump_decision None None
                           (Some (PathObj "deck.json")) true false)));
      reflexivity.
  - reflexivity.
Defined.

(** ** The resource file given to the constructor *)

(** X18: a resource file given to the constructor without a recipe is
    forgotten.  When [yaml_to_protocol] is then called with a recipe and
    no resource file, the object it goes on with is the same whatever
    file the constructor was given: its [resource_file] is [None] and its
    resource manager was made without a resource file. *)
Theorem constructor_resource_file_forgotten {R : Type}
  (from_yaml : option pathlike → result ProtocolConfig)
  (read_excel : string → result DataFrame)
  (new_manager : ProtocolConfig → option pathlike → result R)
  (config_path : option pathlike)
  (resource_file resource_file' : option pathlike) :
  (self ← init from_yaml read_excel new_manager None resource_file;
   ensure_loaded from_yaml read_excel new_manager self config_path None)
  = (self ← init from_yaml read_excel new_manager None resource_file';
     ensure_loaded from_yaml read_excel new_manager self config_path None) ∧
  ∀ self',
    (self ← init from_yaml read_excel new_manager None resource_file;
     ensure_loaded from_yaml read_excel new_manager self config_path None)
    = Ok self' →
    self_resource_file self' = None ∧
    ∃ config manager,
      from_yaml config_path = Ok config ∧
      new_manager config None = Ok manager ∧
      self_resource_manager self' = Some manager.
Proof.
  unfold init, ensure_loaded. cbn [truthy mbind result_bind mret result_ret
    self_config].
  split.
  - unfold method_load_config.
    destruct (from_yaml config_path) as [config|e]; [|done].
    cbn [mbind result_bind].
    destruct (load_resources read_excel (config_resources config))
      as [loaded|e]; [|done].
    cbn [mbind result_bind].
    destruct (new_manager config None) as [rm|e]; [|done].
    cbn [mbind result_bind].
    destruct (_postprocess_commands loaded.1 (config_commands config))
      as [cs|e]; done.
  - intros self' (self1 & Hload & Hrun)%bind_Ok.
    unfold method_load_config in Hload.
    apply bind_Ok in Hload as (config & Hcfg & Hload).
    apply bind_Ok in Hload as (loaded & _ & Hload).
    apply bind_Ok in Hload as (rm & Hrm & Hload).
    apply bind_Ok in Hload as (cs & _ & Hload).
    injection Hload as <-. cbn [self_resource_file truthy andb] in Hrun.
    injection Hrun as <-. cbn. split; [done|]. by exists config, rm.
Qed.

Lemma constructor_resource_file_forgotten_witness :
  ∃ self',
    (self ← init demo_from_yaml (λ _, Raise ValueError) demo_new_manager
              None (Some (PathStr "deck.json"));
     ensure_loaded demo_from_yaml (λ _, Raise ValueError) demo_new_manager
       self (Some (PathStr "recipe.yaml")) None)
    = Ok self' ∧
    self_resource_file self' = None.
Proof.
  eexists. split; [reflexivity|].
  apply (proj2 (constructor_resource_file_forgotten demo_from_yaml
                  (λ _, Raise ValueError) demo_new_manager
                  (Some (PathStr "recipe.yaml"))
                  (Some (PathStr "deck.json")) None)).
  reflexivity.
Defined.

(** X19: [compile_protocol] loads the recipe once.  After its call of
    [load_config], the opening statements of [yaml_to_protocol] find the
    recipe loaded and the resource file in place, and do not call
    [load_config] again: the object is the one that call left, and when
    [compile_protocol] gets as far as the compilation, the calls of
    [load_config] on the object are those made before and that one
    call. *)
Theorem compile_protocol_loads_once {R : Type}
  (from_yaml : option pathlike → result ProtocolConfig)
  (read_excel : string → result DataFrame)
  (new_manager : ProtocolConfig → option pathlike → result R)
  (self : ProtoPiler R) (config_path resource_file : option pathlike) :
  compile_protocol_load from_yaml read_excel new_manager self
    config_path resource_file
  = method_load_config from_yaml read_excel new_manager self
      config_path resource_file ∧
  ∀ self',
    compile_protocol_load from_yaml read_excel new_manager self
      config_path resource_file = Ok self' →
    load_calls self' = load_calls self ++ [(config_path, resource_file)].
Proof.
  assert (∀ self',
    method_load_config from_yaml read_excel new_manager self
      config_path resource_file = Ok self' →
    ensure_loaded from_yaml read_excel new_manager self'
      config_path resource_file = Ok self' ∧
    load_calls self' = load_calls self ++ [(config_path, resource_file)])
    as Hloaded.
  { intros self' Hload. unfold method_load_config in Hload.
    apply bind_Ok in Hload as (config & Hcfg & Hload).
    apply bind_Ok in Hload as (loaded & _ & Hload).
    apply bind_Ok in Hload as (rm & Hrm & Hload).
    apply bind_Ok in Hload as (cs & _ & Hload).
    injection Hload as <-. split; [|reflexivity]. unfold ensure_loaded.
    cbn [self_config self_resource_file mbind result_bind mret result_ret].
    by destruct (truthy resource_file). }
  unfold compile_protocol_load.
  destruct (method_load_config _ _ _ self config_path resource_file)
    as [self1|e]; [|done].
  cbn [mbind result_bind].
  destruct (Hloaded self1 eq_refl) as [-> Hlog].
  split; [done|]. by intros self' [= <-].
Qed.

Lemma compile_protocol_loads_once_witness :
  ∃ self' : ProtoPiler Deck,
    compile_protocol_load demo_from_yaml (λ _, Raise ValueError)
      demo_new_manager fresh_object
      (Some (PathStr "recipe.yaml")) (Some (PathStr "deck.json"))
    = Ok self' ∧
    load_calls self'
    = [(Some (PathStr "recipe.yaml"), Some (PathStr "deck.json"))].
Proof.
  eexists. split; [reflexivity|].
  apply (proj2 (compile_protocol_loads_once demo_from_yaml
                  (λ _, Raise ValueError) demo_new_manager fresh_object
                  (Some (PathStr "recipe.yaml"))
                  (Some (PathStr "deck.json")))).
  reflexivity.
Defined.
